(** * barahlo: keyword monitor for a Telegram chat

    A shallow embedding of [main.py]: the duplicate store
    ([load_forwarded_messages], [save_forwarded_messages],
    [add_forwarded_message]), the poll cycle
    ([get_chat_messages_by_time]) with its keyword matcher and its
    relative-age formatter, the scheduler ([run_scheduler]) and the
    connection test ([test_telegram_connection]).

    Conventions of the embedding:
    - a Python [str] is a [string] whose characters are the code points
      below 256; [int] is [Z]; a [set] of message ids is a [gset Z];
    - a [datetime] is the number of microseconds since the epoch (UTC),
      a [timedelta] its normal form of days, seconds and microseconds;
    - the file [forwarded_messages.json] is an [option string]
      ([None]: the file does not exist);
    - the Telegram client, the clock and the [json] module are the
      environment of the script; the client and the clock are oracles of
      the [world], the [json] module is modelled after CPython's
      decoder and encoder;
    - what the script prints is not modelled: a run is observed through
      its calls on the client, its questions at the console, the file
      and what it returns or raises. *)

From Stdlib Require Import ZArith NArith List Lia Bool Sorted.
From Stdlib Require Import Ascii String Decimal DecimalString.
From Stdlib Require Import DecimalFacts DecimalPos DecimalN DecimalZ.
From stdpp Require Import strings gmap.

Local Open Scope Z_scope.

(** ** Python strings *)

Module PyStr.

(** [c.lower()] on one code point below 256: the upper-case letters are
    A-Z, and in the Latin-1 block 192-222 without the multiplication
    sign 215; each maps 32 places up. *)
Definition lower_char (c : ascii) : ascii :=
  let n := nat_of_ascii c in
  if ((65 <=? n)%nat && (n <=? 90)%nat)
     || ((192 <=? n)%nat && (n <=? 222)%nat && negb (n =? 215)%nat)
  then ascii_of_nat (n + 32) else c.

(** [s.lower()]. Text outside the code points below 256 (Cyrillic,
    Greek, ...) has no image in the embedding; on ASCII text this is
    [str.lower] whatever the encoding of the literal. *)
Fixpoint lower (s : string) : string :=
  match s with
  | EmptyString => EmptyString
  | String c s' => String (lower_char c) (lower s')
  end.

(** [s.startswith(p)] *)
Fixpoint startswith (p s : string) : bool :=
  match p, s with
  | EmptyString, _ => true
  | String _ _, EmptyString => false
  | String a p', String b s' => Ascii.eqb a b && startswith p' s'
  end.

(** [needle in hay]: the needle starts at some position of the hay. *)
Fixpoint contains (needle hay : string) : bool :=
  startswith needle hay ||
  match hay with
  | EmptyString => false
  | String _ hay' => contains needle hay'
  end.

(** [sep.join(parts)] *)
Fixpoint join (sep : string) (parts : list string) : string :=
  match parts with
  | [] => EmptyString
  | [p] => p
  | p :: rest => p +:+ sep +:+ join sep rest
  end.

(** [s.split(sep)] for a separator of one character. *)
Fixpoint split (sep : ascii) (s : string) : list string :=
  match s with
  | EmptyString => [EmptyString]
  | String c s' =>
      if Ascii.eqb c sep then EmptyString :: split sep s'
      else match split sep s' with
           | piece :: pieces => String c piece :: pieces
           | [] => [String c EmptyString]
           end
  end.

(** [c.isspace()] below 256. *)
Definition isspace (c : ascii) : bool :=
  let n := nat_of_ascii c in
  ((9 <=? n)%nat && (n <=? 13)%nat) || ((28 <=? n)%nat && (n <=? 32)%nat)
  || (n =? 133)%nat || (n =? 160)%nat.

Fixpoint lstrip (s : string) : string :=
  match s with
  | EmptyString => EmptyString
  | String c s' => if isspace c then lstrip s' else s
  end.

Fixpoint rstrip (s : string) : string :=
  match s with
  | EmptyString => EmptyString
  | String c s' =>
      match rstrip s' with
      | EmptyString => if isspace c then EmptyString else String c EmptyString
      | r => String c r
      end
  end.

(** [s.strip()] *)
Definition strip (s : string) : string := rstrip (lstrip s).

(** Truth value of a string: [bool(s)]. *)
Definition truthy (s : string) : bool :=
  match s with EmptyString => false | String _ _ => true end.

(** [str(n)] for an [int]: decimal digits, a minus sign when negative.
    (CPython's configurable cap on the number of digits is not
    modelled.) *)
Definition of_int (n : Z) : string := NilEmpty.string_of_int (Z.to_int n).

End PyStr.

(** ** Keyword Matcher ([main.py], lines 139-143) *)

(** The loop
<<
    matching_keywords = []
    for keyword in KEYWORDS:
        if keyword.lower() in message_text_lower:
            matching_keywords.append(keyword)
>>
    as a left fold that appends to the accumulator. *)
Definition matching_keywords_loop (message_text_lower : string)
    (KEYWORDS : list string) (matching_keywords : list string) : list string :=
  fold_left
    (fun acc keyword =>
       if PyStr.contains (PyStr.lower keyword) message_text_lower
       then acc ++ [keyword] else acc)
    KEYWORDS matching_keywords.

Definition matching_keywords (KEYWORDS : list string) (text : string)
  : list string :=
  let message_text_lower := PyStr.lower text in
  matching_keywords_loop message_text_lower KEYWORDS [].

(** The matcher as the specification words it: the keywords [k] of [K]
    such that [k.lower()] occurs in [T.lower()], where "occurs in" is
    plain substring containment. *)
Definition is_substring (n h : string) : Prop :=
  exists pre post, h = pre +:+ n +:+ post.

Definition matchedKeywords_spec (K : list string) (T : string) : list string :=
  List.filter (fun k => PyStr.contains (PyStr.lower k) (PyStr.lower T)) K.


(** ** The [json] module

    [json.load] and [json.dump] belong to Python's standard library, not
    to the script; they are modelled after CPython's decoder
    ([json.decoder], [json.scanner]) on texts of code points below 256,
    and after its encoder on lists of integers, the only value the
    script ever dumps. *)

Module Json.

#[local] Set Warnings "-register-all".

(** A decoded document. Numbers with a fraction or an exponent and
    strings keep their lexeme: the script never looks inside them. *)
Inductive value : Type :=
| Null
| Bool (b : bool)
| Int (z : Z)
| Float (lexeme : string)
| Str (raw : string)
| Arr (items : list value)
| Obj (members : list (string * value)).

(** The double quote that delimits a JSON string (code point 34). *)
Definition quote : ascii := "034"%char.

(** The decoder's whitespace: space, tab, line feed, carriage return. *)
Definition is_ws (c : ascii) : bool :=
  let n := nat_of_ascii c in
  (n =? 32)%nat || (n =? 9)%nat || (n =? 10)%nat || (n =? 13)%nat.

Fixpoint skip_ws (s : string) : string :=
  match s with
  | EmptyString => EmptyString
  | String c s' => if is_ws c then skip_ws s' else s
  end.

Definition is_digit (c : ascii) : bool :=
  let n := nat_of_ascii c in (48 <=? n)%nat && (n <=? 57)%nat.

Definition is_hex (c : ascii) : bool :=
  let n := nat_of_ascii c in
  is_digit c || ((65 <=? n)%nat && (n <=? 70)%nat)
             || ((97 <=? n)%nat && (n <=? 102)%nat).

(** The longest run of digits at the head of [s], and what follows. *)
Fixpoint span_digits (s : string) : string * string :=
  match s with
  | EmptyString => (EmptyString, EmptyString)
  | String c s' =>
      if is_digit c
      then let (ds, r) := span_digits s' in (String c ds, r)
      else (EmptyString, s)
  end.

(** [s] without the prefix [p], when it starts with it. *)
Fixpoint strip_prefix (p s : string) : option string :=
  match p, s with
  | EmptyString, _ => Some s
  | String _ _, EmptyString => None
  | String a p', String b s' =>
      if Ascii.eqb a b then strip_prefix p' s' else None
  end.

(** The number pattern of the scanner, piece by piece: an integer part
    (a lone zero, or a non-zero digit and more digits) after an
    optional minus sign; an optional fraction (a dot and one digit or
    more); an optional exponent (e or E, an optional sign, one digit or
    more). *)
Definition match_integer (s : string) : option (string * string) :=
  match s with
  | EmptyString => None
  | String c s' =>
      if Ascii.eqb c "0" then Some (String c EmptyString, s')
      else if is_digit c
      then let (ds, r) := span_digits s' in Some (String c ds, r)
      else None
  end.

Definition match_frac (s : string) : option (string * string) :=
  match s with
  | String c s' =>
      if Ascii.eqb c "." then
        match span_digits s' with
        | (EmptyString, _) => None
        | (ds, r) => Some (String c ds, r)
        end
      else None
  | EmptyString => None
  end.

Definition match_exp (s : string) : option (string * string) :=
  match s with
  | String e s' =>
      if Ascii.eqb e "e" || Ascii.eqb e "E" then
        let (sign, s'') :=
          match s' with
          | String c r =>
              if Ascii.eqb c "+" || Ascii.eqb c "-"
              then (String c EmptyString, r) else (EmptyString, s')
          | EmptyString => (EmptyString, s')
          end in
        match span_digits s'' with
        | (EmptyString, _) => None
        | (ds, r) => Some (String e (sign +:+ ds), r)
        end
      else None
  | EmptyString => None
  end.

(** The number after its optional sign. Without fraction and exponent
    the lexeme is an [int], otherwise a [float]. *)
Definition match_unsigned (sign s1 : string) : option (value * string) :=
  match match_integer s1 with
  | None => None
  | Some (integer, s2) =>
      let (frac, s3) :=
        match match_frac s2 with
        | Some (f, r) => (f, r) | None => (EmptyString, s2)
        end in
      let (exp, s4) :=
        match match_exp s3 with
        | Some (e, r) => (e, r) | None => (EmptyString, s3)
        end in
      match frac, exp with
      | EmptyString, EmptyString =>
          match NilEmpty.int_of_string (sign +:+ integer) with
          | Some d => Some (Int (Z.of_int d), s4)
          | None => None
          end
      | _, _ => Some (Float (sign +:+ integer +:+ frac +:+ exp), s4)
      end
  end.

Definition match_number (s : string) : option (value * string) :=
  match s with
  | String c r =>
      if Ascii.eqb c "-" then match_unsigned (String c EmptyString) r
      else match_unsigned EmptyString s
  | EmptyString => None
  end.

(** The body of a string after its opening quote, up to the closing
    quote (strict mode): no control character, a backslash only before
    a quote, a backslash, a slash, one of the letters b f n r t, or
    before u and four hexadecimal digits. *)
Fixpoint scanstring (s : string) : option (string * string) :=
  match s with
  | EmptyString => None
  | String c s' =>
      if Ascii.eqb c quote then Some (EmptyString, s')
      else if (nat_of_ascii c <? 32)%nat then None
      else if Ascii.eqb c "\" then
        match s' with
        | EmptyString => None
        | String e s'' =>
            if Ascii.eqb e "u" then
              match s'' with
              | String h1 (String h2 (String h3 (String h4 r))) =>
                  if is_hex h1 && is_hex h2 && is_hex h3 && is_hex h4 then
                    match scanstring r with
                    | Some (body, rest) =>
                        Some (String c (String e (String h1 (String h2
                                (String h3 (String h4 body))))), rest)
                    | None => None
                    end
                  else None
              | _ => None
              end
            else if Ascii.eqb e quote || Ascii.eqb e "\" || Ascii.eqb e "/"
                    || Ascii.eqb e "b" || Ascii.eqb e "f" || Ascii.eqb e "n"
                    || Ascii.eqb e "r" || Ascii.eqb e "t" then
              match scanstring s'' with
              | Some (body, rest) => Some (String c (String e body), rest)
              | None => None
              end
            else None
        end
      else
        match scanstring s' with
        | Some (body, rest) => Some (String c body, rest)
        | None => None
        end
  end.

(** The constants the scanner knows by name. *)
Definition scan_constant (s : string) : option (value * string) :=
  match strip_prefix "null" s with
  | Some r => Some (Null, r)
  | None =>
  match strip_prefix "true" s with
  | Some r => Some (Bool true, r)
  | None =>
  match strip_prefix "false" s with
  | Some r => Some (Bool false, r)
  | None =>
  match strip_prefix "NaN" s with
  | Some r => Some (Float "NaN", r)
  | None =>
  match strip_prefix "Infinity" s with
  | Some r => Some (Float "Infinity", r)
  | None =>
  match strip_prefix "-Infinity" s with
  | Some r => Some (Float "-Infinity", r)
  | None => None
  end end end end end end.

(** [scan_once]: one value at the head of [s] and the text after it;
    [None] stands for the decoder's [JSONDecodeError]. The recursion
    into arrays and objects is bounded by [fuel]; every call consumes a
    character, so twice the length of the text is always enough (lemma
    [fuel_is_enough] below). The interpreter's own recursion limit is
    not modelled. *)
Fixpoint scan_once (fuel : nat) (s : string) : option (value * string) :=
  match fuel with
  | O => None
  | S fuel =>
      match s with
      | EmptyString => None
      | String c r =>
          if Ascii.eqb c quote then
            match scanstring r with
            | Some (body, rest) => Some (Str body, rest)
            | None => None
            end
          else if Ascii.eqb c "{" then
            match skip_ws r with
            | String c' r' =>
                if Ascii.eqb c' "}" then Some (Obj [], r')
                else JSONObject fuel (String c' r') []
            | EmptyString => None
            end
          else if Ascii.eqb c "[" then
            match skip_ws r with
            | String c' r' =>
                if Ascii.eqb c' "]" then Some (Arr [], r')
                else JSONArray fuel (String c' r') []
            | EmptyString => None
            end
          else
            match scan_constant s with
            | Some found => Some found
            | None => match_number s
            end
      end
  end

(** The element loop of an array: a value, then [,] or the closing
    bracket. [values] holds the elements read so far. *)
with JSONArray (fuel : nat) (s : string) (values : list value)
  : option (value * string) :=
  match fuel with
  | O => None
  | S fuel =>
      match scan_once fuel s with
      | None => None
      | Some (v, r) =>
          match skip_ws r with
          | String c r' =>
              if Ascii.eqb c "]" then Some (Arr (values ++ [v]), r')
              else if Ascii.eqb c ","
              then JSONArray fuel (skip_ws r') (values ++ [v])
              else None
          | EmptyString => None
          end
      end
  end

(** The member loop of an object: a quoted key, a colon, a value, then
    [,] or the closing brace. *)
with JSONObject (fuel : nat) (s : string) (pairs : list (string * value))
  : option (value * string) :=
  match fuel with
  | O => None
  | S fuel =>
      match s with
      | String q s1 =>
          if Ascii.eqb q quote then
            match scanstring s1 with
            | None => None
            | Some (key, s2) =>
                match skip_ws s2 with
                | String colon s3 =>
                    if Ascii.eqb colon ":" then
                      match scan_once fuel (skip_ws s3) with
                      | None => None
                      | Some (v, s4) =>
                          match skip_ws s4 with
                          | String c s5 =>
                              if Ascii.eqb c "}"
                              then Some (Obj (pairs ++ [(key, v)]), s5)
                              else if Ascii.eqb c ","
                              then JSONObject fuel (skip_ws s5)
                                     (pairs ++ [(key, v)])
                              else None
                          | EmptyString => None
                          end
                      end
                    else None
                | EmptyString => None
                end
            end
          else None
      | EmptyString => None
      end
  end.

(** [json.loads(s)]: leading whitespace, one value, trailing
    whitespace, and nothing more. *)
Definition loads (s : string) : option value :=
  match scan_once (2 * String.length s + 1) (skip_ws s) with
  | Some (v, r) =>
      match skip_ws r with
      | EmptyString => Some v
      | String _ _ => None
      end
  | None => None
  end.

(** [json.dumps(ids)] for a list of integers, with the default
    separator. *)
Definition dumps (ids : list Z) : string :=
  "[" +:+ PyStr.join ", " (map PyStr.of_int ids) +:+ "]".

End Json.

(** ** Python outcomes *)

(** The exceptions that the modelled code can meet. [ClientError] stands
    for any [Exception] that a call on the Telegram client raises. *)
Inductive exn : Type :=
| JSONDecodeError
| FileNotFoundError
| TypeError
| ClientError.

(** What a call does: it returns, or it raises. [Foreign] marks an
    outcome that the embedding does not determine: a returned Python
    value that it has no type for (a [set] with members that are not
    integers: strings, floats, [None], which the script itself never
    writes), or the reading of a file whose outcome hangs on the
    interpreter or the platform ([within_limits] below). Nothing is
    stated of a [Foreign] outcome: it may be a value, it may be an
    exception. *)
Inductive result (A : Type) : Type :=
| Return (a : A)
| Raise (e : exn)
| Foreign.

Arguments Return {A} a.
Arguments Raise {A} e.
Arguments Foreign {A}.

(** ** Duplicate Store ([main.py], lines 39-63) *)

(** The state of [FORWARDED_MESSAGES_FILE]: its text, or [None] when the
    file does not exist. *)
Definition file : Type := option string.

(** Every character of the text is an ASCII character. *)
Fixpoint ascii_only (s : string) : bool :=
  match s with
  | EmptyString => true
  | String c s' => (nat_of_ascii c <? 128)%nat && ascii_only s'
  end.

(** The number of opening brackets and braces in the text: no list or
    object of the text is nested deeper. *)
Fixpoint openers (s : string) : nat :=
  match s with
  | EmptyString => O
  | String c s' =>
      if Ascii.eqb c "[" || Ascii.eqb c "{" then S (openers s')
      else openers s'
  end.

(** The texts on which reading and decoding depend on the text alone.
    Bytes outside ASCII are read through the encoding of the platform,
    which decides what they decode to and whether reading raises
    [UnicodeDecodeError]. Nesting is decoded by recursion, and past the
    interpreter's recursion limit (1000 frames by default) the decoder
    raises [RecursionError]; a hundred levels are within reach of every
    build. Neither exception is among those that the script handles. *)
Definition within_limits (content : string) : bool :=
  ascii_only content && (openers content <=? 100)%nat.

(** [json.load(f)] on the text of the file. When it exists the file is
    taken to be a regular file that can be read. Outside [within_limits]
    the outcome is [Foreign]. One limit of the interpreter is not
    modelled, here as in [PyStr.of_int]: the cap on the digits of an
    integer literal ([ValueError] past 4300 digits by default, never
    below 640); the statements about arbitrary texts carry
    [short_numerals] for it. *)
Definition json_load (content : string) : result Json.value :=
  if within_limits content then
    match Json.loads content with
    | Some v => Return v
    | None => Raise JSONDecodeError
    end
  else Foreign.

Definition unhashable (v : Json.value) : bool :=
  match v with
  | Json.Arr _ | Json.Obj _ => true
  | _ => false
  end.

(** The integers of a list of values, when all of them are integers. *)
Fixpoint all_ints (items : list Json.value) : option (list Z) :=
  match items with
  | [] => Some []
  | Json.Int z :: rest =>
      match all_ints rest with
      | Some zs => Some (z :: zs)
      | None => None
      end
  | _ :: _ => None
  end.

(** [set(v)] on a decoded document: an array is iterated and its
    elements hashed (a list or a dict among them raises [TypeError]); a
    dict gives its keys and a string its characters; [None], booleans and
    numbers are not iterable. *)
Definition py_set (v : Json.value) : result (gset Z) :=
  match v with
  | Json.Arr items =>
      if existsb unhashable items then Raise TypeError
      else match all_ints items with
           | Some ids => Return (list_to_set ids)
           | None => Foreign
           end
  | Json.Obj [] => Return ∅
  | Json.Obj (_ :: _) => Foreign
  | Json.Str EmptyString => Return ∅
  | Json.Str (String _ _) => Foreign
  | Json.Null | Json.Bool _ | Json.Int _ | Json.Float _ => Raise TypeError
  end.

(** <<
    def load_forwarded_messages():
        if os.path.exists(FORWARDED_MESSAGES_FILE):
            try:
                with open(FORWARDED_MESSAGES_FILE, "r") as f:
                    return set(json.load(f))
            except (json.JSONDecodeError, FileNotFoundError):
                return set()
        return set()
>> *)
Definition load_forwarded_messages (fs : file) : result (gset Z) :=
  match fs with
  | Some content =>
      let body :=
        match json_load content with
        | Return v => py_set v
        | Raise e => Raise e
        | Foreign => Foreign
        end in
      match body with
      | Raise JSONDecodeError | Raise FileNotFoundError => Return ∅
      | outcome => outcome
      end
  | None => Return ∅
  end.

(** <<
    def save_forwarded_messages(forwarded_ids):
        with open(FORWARDED_MESSAGES_FILE, "w") as f:
            json.dump(list(forwarded_ids), f)
>>
    The file is created or truncated, whatever it held; [list(...)]
    enumerates the set in an order of its own, here that of [elements].
    Writing is taken to succeed. *)
Definition save_forwarded_messages (forwarded_ids : gset Z) (fs : file) : file :=
  Some (Json.dumps (elements forwarded_ids)).

(** <<
    def add_forwarded_message(forwarded_ids, message_id):
        forwarded_ids.add(message_id)
        save_forwarded_messages(forwarded_ids)
>>
    The set is mutated in place: the caller's set is the returned one. *)
Definition add_forwarded_message (forwarded_ids : gset Z) (message_id : Z)
    (fs : file) : gset Z * file :=
  let forwarded_ids := {[message_id]} ∪ forwarded_ids in
  (forwarded_ids, save_forwarded_messages forwarded_ids fs).

(** ** Time *)

Module Time.

(** A [timedelta] in its normal form: any number of days, and within the
    day [0 <= seconds < 86400] and [0 <= microseconds < 1000000]. *)
Record timedelta : Type := {
  days : Z;
  seconds : Z;
  microseconds : Z
}.

Definition us_per_second : Z := 1000000.
Definition us_per_day : Z := 86400 * us_per_second.

Definition of_microseconds (us : Z) : timedelta :=
  {| days := us / us_per_day;
     seconds := (us mod us_per_day) / us_per_second;
     microseconds := us mod us_per_second |}.

(** [timedelta(hours=h)] in microseconds. *)
Definition hours (h : Z) : Z := h * 3600 * us_per_second.

(** [a - b] for two datetimes. *)
Definition diff (a b : Z) : timedelta := of_microseconds (a - b).

End Time.

(** The relative age of lines 163-174:
<<
    if time_diff.days > 0:
        time_ago = f"{time_diff.days} day{'s' if time_diff.days > 1 else ''} ago"
    elif time_diff.seconds >= 3600:
        hours = time_diff.seconds // 3600
        time_ago = f"{hours} hour{'s' if hours > 1 else ''} ago"
    elif time_diff.seconds >= 60:
        minutes = time_diff.seconds // 60
        time_ago = f"{minutes} minute{'s' if minutes > 1 else ''} ago"
    else:
        time_ago = "just now"
>> *)
Definition time_ago (time_diff : Time.timedelta) : string :=
  if Time.days time_diff >? 0 then
    PyStr.of_int (Time.days time_diff) +:+ " day"
      +:+ (if Time.days time_diff >? 1 then "s" else "") +:+ " ago"
  else if Time.seconds time_diff >=? 3600 then
    let hours := Time.seconds time_diff / 3600 in
    PyStr.of_int hours +:+ " hour" +:+ (if hours >? 1 then "s" else "") +:+ " ago"
  else if Time.seconds time_diff >=? 60 then
    let minutes := Time.seconds time_diff / 60 in
    PyStr.of_int minutes +:+ " minute"
      +:+ (if minutes >? 1 then "s" else "") +:+ " ago"
  else "just now".

(** The relative age as the specification words it, on the difference in
    microseconds: the largest unit among day, hour and minute that the
    difference reaches, its whole count [N], and the unit in the singular
    exactly when [N = 1]. *)
Definition unit_count (N : Z) (unit : string) : string :=
  PyStr.of_int N +:+ " " +:+ unit +:+ (if N =? 1 then "" else "s") +:+ " ago".

Definition relative_age_spec (us : Z) : string :=
  let minute := 60 * Time.us_per_second in
  let hour := 60 * minute in
  let day := 24 * hour in
  if day <=? us then unit_count (us / day) "day"
  else if hour <=? us then unit_count (us / hour) "hour"
  else if minute <=? us then unit_count (us / minute) "minute"
  else "just now".

(** ** Configuration ([main.py], lines 29-40) *)

Record config : Type := {
  KEYWORDS : list string;
  FORWARD_TO_USERNAME : string
}.

(** [os.getenv("KEYWORDS", "").split(",")] *)
Definition KEYWORDS_of_env (value : option string) : list string :=
  PyStr.split ","
    (match value with Some v => v | None => EmptyString end).

(** ** The Telegram client, as far as the script looks at it *)

(** [message.sender]: a user has a first and a last name (either may be
    [None]), a channel or a group has a title; [Nameless] is an entity
    with neither attribute. *)
Inductive entity : Type :=
| User (first_name last_name : option string)
| Channel (title : string)
| Nameless.

Module Message.
Record t : Type := {
  id : Z;
  date : Z;                 (* datetime, microseconds since the epoch *)
  text : option string;     (* None: a message without text *)
  sender : option entity
}.
End Message.

(** The dictionary [message_data]. The key ["matching_keywords"] is
    absent until a new match sets it. ["date"] is kept as the datetime it
    is formatted from. *)
Module MessageData.
Record t : Type := {
  id : Z;
  date : Z;
  text : string;
  sender_name : string;
  matching_keywords : option (list string)
}.
End MessageData.

(** The calls the script makes on the client (its console output is not
    modelled). *)
Inductive call : Type :=
| Connect
| IsUserAuthorized
| GetEntity (username : string)
| SendMessage (target : string) (text : string)
| ForwardMessages (target : string) (message : Message.t)
| Disconnect.

(** The environment of one cycle. The clock and the network are
    oracles: [utcnow n] is the [n]-th reading of
    [datetime.now(timezone.utc)], [raises n] tells whether the [n]-th
    call on the client raises an [Exception]. [history] is what
    [client.iter_messages(chat)] yields, in the order it yields it; an
    iterator that raises midway is a shorter history, since the blanket
    [except] of the cycle only prints. *)
Record world : Type := {
  utcnow : nat -> Z;
  raises : nat -> bool;
  authorized : bool;
  history : list Message.t
}.

(** The variables of [get_chat_messages_by_time] that outlive one
    message, the file, and the log of the calls made so far, each with
    whether it returned. *)
Record cycle : Type := {
  forwarded_message_ids : gset Z;
  disk : file;
  messages : list MessageData.t;
  matching_messages : list MessageData.t;
  skipped_messages : nat;
  clock : nat;
  calls : list (call * bool)
}.

Definition start (forwarded_message_ids : gset Z) (fs : file) : cycle :=
  {| forwarded_message_ids := forwarded_message_ids;
     disk := fs;
     messages := [];
     matching_messages := [];
     skipped_messages := 0;
     clock := 1;
     calls := [] |}.

(** [await client.<call>(...)]: the oracle decides whether the call
    returns ([true]) or raises ([false]); either way it is logged. *)
Definition client_call (w : world) (c : call) (st : cycle) : bool * cycle :=
  let ok := negb (raises w (length (calls st))) in
  (ok,
   {| forwarded_message_ids := forwarded_message_ids st;
      disk := disk st;
      messages := messages st;
      matching_messages := matching_messages st;
      skipped_messages := skipped_messages st;
      clock := clock st;
      calls := calls st ++ [(c, ok)] |}).

(** [datetime.now(timezone.utc)] *)
Definition read_clock (w : world) (st : cycle) : Z * cycle :=
  (utcnow w (clock st),
   {| forwarded_message_ids := forwarded_message_ids st;
      disk := disk st;
      messages := messages st;
      matching_messages := matching_messages st;
      skipped_messages := skipped_messages st;
      clock := S (clock st);
      calls := calls st |}).

(** [messages.append(message_data)] *)
Definition messages_append (message_data : MessageData.t) (st : cycle) : cycle :=
  {| forwarded_message_ids := forwarded_message_ids st;
     disk := disk st;
     messages := messages st ++ [message_data];
     matching_messages := matching_messages st;
     skipped_messages := skipped_messages st;
     clock := clock st;
     calls := calls st |}.

(** [matching_messages.append(message_data)] *)
Definition matching_messages_append (message_data : MessageData.t)
    (st : cycle) : cycle :=
  {| forwarded_message_ids := forwarded_message_ids st;
     disk := disk st;
     messages := messages st;
     matching_messages := matching_messages st ++ [message_data];
     skipped_messages := skipped_messages st;
     clock := clock st;
     calls := calls st |}.

(** [skipped_messages += 1] *)
Definition count_skipped (st : cycle) : cycle :=
  {| forwarded_message_ids := forwarded_message_ids st;
     disk := disk st;
     messages := messages st;
     matching_messages := matching_messages st;
     skipped_messages := S (skipped_messages st);
     clock := clock st;
     calls := calls st |}.

(** [add_forwarded_message(forwarded_message_ids, message.id)] inside the
    cycle. *)
Definition track (message_id : Z) (st : cycle) : cycle :=
  let (ids, fs) :=
    add_forwarded_message (forwarded_message_ids st) message_id (disk st) in
  {| forwarded_message_ids := ids;
     disk := fs;
     messages := messages st;
     matching_messages := matching_messages st;
     skipped_messages := skipped_messages st;
     clock := clock st;
     calls := calls st |}.

(** Lines 123-134: the display name of the sender. *)
Definition sender_name (sender : option entity) : string :=
  match sender with
  | Some (User first_name last_name) =>
      let name_parts :=
        [match first_name with Some n => n | None => EmptyString end] in
      let name_parts :=
        match last_name with
        | Some l => if PyStr.truthy l then name_parts ++ [l] else name_parts
        | None => name_parts
        end in
      PyStr.strip (PyStr.join " " name_parts)
  | Some (Channel title) => title
  | Some Nameless | None => "Unknown"
  end.

(** Lines 156-188, the [try] block of a new match: read the clock, word
    the age, send the header, forward the message, track its id. An
    exception of either call ends the block in its [except] branch,
    which only prints. (The flame at the head of the header stands in the
    literal as its UTF-8 bytes.) *)
Definition forward (cfg : config) (w : world) (message : Message.t)
    (matching_keywords : list string) (st : cycle) : cycle :=
  let (now, st) := read_clock w st in
  let time_diff := Time.diff now (Message.date message) in
  let header_text :=
    "🔥 Keyword match: " +:+ PyStr.join ", " matching_keywords
      +:+ " (" +:+ time_ago time_diff +:+ ")" in
  let (sent, st) :=
    client_call w (SendMessage (FORWARD_TO_USERNAME cfg) header_text) st in
  if sent then
    let (forwarded, st) :=
      client_call w (ForwardMessages (FORWARD_TO_USERNAME cfg) message) st in
    if forwarded then track (Message.id message) st
    else st
  else st.

(** Lines 118-188, the body of the loop below the cutoff test. The
    dictionary appended to [messages] is the very object that a new match
    completes afterwards with its keywords and appends to
    [matching_messages]; nothing reads [messages] in between, so the
    completed record is appended to both. *)
Definition process_message (cfg : config) (w : world) (message : Message.t)
    (st : cycle) : cycle :=
  match Message.text message with
  | None => st
  | Some text =>
      if PyStr.truthy text then
        let message_data :=
          {| MessageData.id := Message.id message;
             MessageData.date := Message.date message;
             MessageData.text := text;
             MessageData.sender_name := sender_name (Message.sender message);
             MessageData.matching_keywords := None |} in
        match matching_keywords (KEYWORDS cfg) text with
        | [] => messages_append message_data st
        | (_ :: _) as found =>
            if decide (Message.id message ∈ forwarded_message_ids st) then
              count_skipped (messages_append message_data st)
            else
              let message_data :=
                {| MessageData.id := Message.id message;
                   MessageData.date := Message.date message;
                   MessageData.text := text;
                   MessageData.sender_name :=
                     sender_name (Message.sender message);
                   MessageData.matching_keywords := Some found |} in
              let st := messages_append message_data st in
              let st := matching_messages_append message_data st in
              forward cfg w message found st
        end
      else st
  end.

(** Lines 113-116, the loop over [client.iter_messages(chat)]: it stops
    at the first message dated before the cutoff. *)
Fixpoint iter_messages (cfg : config) (w : world) (cutoff_time : Z)
    (chat : list Message.t) (st : cycle) : cycle :=
  match chat with
  | [] => st
  | message :: later =>
      if Message.date message <? cutoff_time then st
      else iter_messages cfg w cutoff_time later
             (process_message cfg w message st)
  end.

(** [cutoff_time = datetime.now(timezone.utc) - timedelta(hours=hours_back)] *)
Definition cutoff (now hours_back : Z) : Z := now - Time.hours hours_back.

(** Lines 83-204, the [try] block of the cycle up to its [finally]:
    connect, check the login, resolve the chat and the target, sweep the
    messages. Each early [return] and the blanket [except] leave the
    state as it is. *)
Definition sweep (cfg : config) (w : world) (chat_username : string)
    (cutoff_time : Z) (st : cycle) : cycle :=
  let (connected, st) := client_call w Connect st in
  if connected then
    let (answered, st) := client_call w IsUserAuthorized st in
    if answered then
      if authorized w then
        let (found_chat, st) := client_call w (GetEntity chat_username) st in
        if found_chat then
          let (found_user, st) :=
            client_call w (GetEntity (FORWARD_TO_USERNAME cfg)) st in
          if found_user
          then iter_messages cfg w cutoff_time (history w) st
          else st
        else st
      else st
    else st
  else st.

(** [get_chat_messages_by_time(chat_username, hours_back)] on the file
    system [fs]. The store is loaded before the [try]: what loading
    raises reaches the caller. So does what [client.disconnect()] raises
    in the [finally] clause; the state reached by then is dropped with
    it, and the properties of that state are stated on [sweep].
    [TelegramClient(...)] of line 77, which precedes both, is taken to
    return: a call in which it raises (an empty API hash, a session file
    that cannot be opened) reaches the caller before the store is loaded
    and without any call on the client, and is outside the embedding. *)
Definition get_chat_messages_by_time (cfg : config) (w : world)
    (chat_username : string) (hours_back : Z) (fs : file) : result cycle :=
  let cutoff_time := cutoff (utcnow w 0) hours_back in
  match load_forwarded_messages fs with
  | Return forwarded_message_ids =>
      let st := start forwarded_message_ids fs in
      let st := sweep cfg w chat_username cutoff_time st in
      let (disconnected, st) := client_call w Disconnect st in
      if disconnected then Return st else Raise ClientError
  | Raise e => Raise e
  | Foreign => Foreign
  end.

(** ** The scheduler ([main.py], lines 290-313) *)

(** What a call of [get_chat_messages_by_time] leaves outside the
    interpreter, whether it returns or raises: the calls made on the
    client, and the store file. *)
Definition cycle_effects (cfg : config) (w : world) (chat_username : string)
    (hours_back : Z) (fs : file) : list (call * bool) * file :=
  match load_forwarded_messages fs with
  | Return forwarded_message_ids =>
      let st := start forwarded_message_ids fs in
      let st := sweep cfg w chat_username (cutoff (utcnow w 0) hours_back) st in
      let (_, st) := client_call w Disconnect st in
      (calls st, disk st)
  | Raise _ | Foreign => ([], fs)
  end.

(** One turn of the loop: the file it found, what the cycle did, the
    calls it made, and the seconds slept afterwards. *)
Record turn : Type := {
  found : file;
  ran : result cycle;
  made : list (call * bool);
  slept : Z
}.

(** <<
    while True:
        try:
            ...
            await get_chat_messages_by_time("NSbaraholka", 1)
            await asyncio.sleep(3600)
        except KeyboardInterrupt:
            break
        except Exception as e:
            ...
            await asyncio.sleep(600)
>>
    The loop has no end of its own; it is unrolled over the worlds of its
    successive turns, one world per cycle. The result is the turns taken
    and the file left behind. A cycle whose store is [Foreign] ends the
    unrolling: the embedding cannot follow it. An interrupt from the
    keyboard is not modelled, and the sleeps are taken to return. *)
Fixpoint run_scheduler (cfg : config) (worlds : list world) (fs : file)
  : list turn * file :=
  match worlds with
  | [] => ([], fs)
  | w :: later =>
      let outcome := get_chat_messages_by_time cfg w "NSbaraholka" 1 fs in
      let (made, fs') := cycle_effects cfg w "NSbaraholka" 1 fs in
      match outcome with
      | Foreign => ([], fs)
      | Return _ | Raise _ =>
          let (turns, final) := run_scheduler cfg later fs' in
          ({| found := fs;
              ran := outcome;
              made := made;
              slept := match outcome with Return _ => 3600 | _ => 600 end |}
             :: turns,
           final)
      end
  end.

(** ** The connection test ([main.py], lines 207-287) *)

Module Login.

(** The credentials of lines 29-31, as read from the environment. *)
Record credentials : Type := {
  API_ID : Z;
  API_HASH : option string;
  PHONE_NUMBER : option string
}.

(** [not v] for what [os.getenv] returns. *)
Definition unset (v : option string) : bool :=
  match v with
  | Some s => negb (PyStr.truthy s)
  | None => true
  end.

(** The calls of the test on its client. *)
Inductive call : Type :=
| Connect
| IsUserAuthorized
| GetMe
| SendCodeRequest (phone : option string)
| SignIn (phone : option string) (code : string)
| SignInPassword (password : string)
| Disconnect.

(** What a call can raise: the error that asks for the password of the
    two-step verification, or any other [Exception]. *)
Inductive error : Type :=
| SessionPasswordNeededError
| OtherException.

Inductive reply : Type :=
| Returns
| Raises (e : error).

(** What the test does that can be seen from outside: its calls on the
    client with their replies, and its questions at the console with the
    answers typed. (What it prints is not modelled.) *)
Inductive event : Type :=
| Called (c : call) (r : reply)
| Asked (prompt answer : string).

(** The environment of the test: [replies n] is how the [n]-th call on
    the client ends, [logged_in] what the login check says when it
    returns, [typed n] the [n]-th line typed at the console. *)
Record world : Type := {
  replies : nat -> reply;
  logged_in : bool;
  typed : nat -> string
}.

Definition is_call (ev : event) : bool :=
  match ev with Called _ _ => true | Asked _ _ => false end.

Definition is_question (ev : event) : bool :=
  match ev with Called _ _ => false | Asked _ _ => true end.

(** A piece of the script: it extends the log, and returns a value or
    raises. *)
Definition action (A : Type) : Type := list event -> list event * (A + error).

#[global] Instance action_ret : MRet action :=
  fun A (a : A) log => (log, inl a).

#[global] Instance action_bind : MBind action :=
  fun A B (k : A -> action B) (m : action A) log =>
    match m log with
    | (log, inl a) => k a log
    | (log, inr e) => (log, inr e)
    end.

(** [await client.<call>(...)] *)
Definition await (w : world) (c : call) : action unit :=
  fun log =>
    let r := replies w (length (List.filter is_call log)) in
    (log ++ [Called c r],
     match r with Returns => inl tt | Raises e => inr e end).

(** [input(prompt)] *)
Definition input (w : world) (prompt : string) : action string :=
  fun log =>
    let answer := typed w (length (List.filter is_question log)) in
    (log ++ [Asked prompt answer], inl answer).

(** [try: body except SessionPasswordNeededError: handler] *)
Definition except_password_needed {A : Type} (body handler : action A)
  : action A :=
  fun log =>
    match body log with
    | (log, inr SessionPasswordNeededError) => handler log
    | done => done
    end.

(** Lines 231-274, the [try] block. *)
Definition try_block (cred : credentials) (w : world) : action unit :=
  await w Connect ;;
  await w IsUserAuthorized ;;
  if logged_in w then await w GetMe
  else
    await w (SendCodeRequest (PHONE_NUMBER cred)) ;;
    code ← input w "📱 Enter the verification code from Telegram: ";
    except_password_needed
      (await w (SignIn (PHONE_NUMBER cred) code))
      (password ← input w "🔑 Enter your 2FA password: ";
       await w (SignInPassword password)) ;;
    await w GetMe.

(** What the test tells the user before it disconnects. *)
Inductive verdict : Type :=
| NoCredentials     (* the instructions of lines 212-222 *)
| Success           (* lines 272-274 *)
| Failure.          (* the [except] branch, lines 276-282 *)

(** [test_telegram_connection()]: the events, and what the call comes
    to. The blanket [except] turns what the [try] block raises into a
    verdict; what [client.disconnect()] raises in the [finally] clause
    reaches the caller. *)
Definition test_telegram_connection (cred : credentials) (w : world)
  : list event * result verdict :=
  if (API_ID cred =? 0) || unset (API_HASH cred) || unset (PHONE_NUMBER cred)
  then ([], Return NoCredentials)
  else
    let (log, outcome) := try_block cred w [] in
    let said := match outcome with inl _ => Success | inr _ => Failure end in
    match await w Disconnect log with
    | (log, inl _) => (log, Return said)
    | (log, inr _) => (log, Raise ClientError)
    end.

(** The credentials are all there. *)
Definition complete (cred : credentials) : bool :=
  negb ((API_ID cred =? 0) || unset (API_HASH cred)
        || unset (PHONE_NUMBER cred)).

(** The events that belong to signing in: a code requested, a question
    asked, a sign-in attempted. *)
Definition signs_in (ev : event) : bool :=
  match ev with
  | Asked _ _ => true
  | Called (SendCodeRequest _ | SignIn _ _ | SignInPassword _) _ => true
  | Called _ _ => false
  end.

Definition opens_or_closes (ev : event) : bool :=
  match ev with
  | Called (Connect | Disconnect) _ => true
  | _ => false
  end.

(** The log opens with the connect and closes with the disconnect, and
    neither is called in between. *)
Definition bracketed (log : list event) : bool :=
  match log with
  | Called Connect _ :: rest =>
      match rev rest with
      | Called Disconnect _ :: middle =>
          forallb (fun ev => negb (opens_or_closes ev)) middle
      | _ => false
      end
  | _ => false
  end.

End Login.

(** ** Vocabulary of the proofs *)

(** What may follow a number inside a dumped list: the separator or the
    closing bracket. *)
Definition delimited (rest : string) : Prop :=
  exists r, rest = String "," r \/ rest = String "]" r.

(** A text that starts like a JSON number: a digit, or a minus sign and
    a digit. *)
Definition number_start (s : string) : Prop :=
  match s with
  | String c t =>
      Json.is_digit c = true
      \/ (c = "-"%char
          /\ match t with
             | String c' _ => Json.is_digit c' = true
             | EmptyString => False
             end)
  | EmptyString => False
  end.

(** The units of time as numerals. *)
Ltac numerals :=
  unfold Time.us_per_day, Time.us_per_second in *;
  change (86400 * 1000000) with 86400000000 in *;
  change (24 * (60 * (60 * 1000000))) with 86400000000 in *;
  change (60 * (60 * 1000000)) with 3600000000 in *;
  change (60 * 1000000) with 60000000 in *.

(** The decoded documents that [set] rejects: a value that cannot be
    iterated, or an array with a member that cannot be hashed. *)
Definition rejected_by_set (v : Json.value) : Prop :=
  match v with
  | Json.Null | Json.Bool _ | Json.Int _ | Json.Float _ => True
  | Json.Arr items => existsb unhashable items = true
  | Json.Str _ | Json.Obj _ => False
  end.

(** No run of digits in the text is longer than [limit]; [run] digits
    precede the text. *)
Fixpoint digit_runs_within (limit run : nat) (s : string) : bool :=
  match s with
  | EmptyString => true
  | String c s' =>
      if Json.is_digit c
      then (S run <=? limit)%nat && digit_runs_within limit (S run) s'
      else digit_runs_within limit O s'
  end.

(** No numeral of the text reaches the cap on the digits of an integer
    literal, however the interpreter is configured. *)
Definition short_numerals (content : string) : bool :=
  digit_runs_within 640 0 content.

(** A plain text: ASCII, of moderate nesting, with short numerals. What
    [json.load] does with it is decided by the JSON grammar alone. *)
Definition plain (content : string) : bool :=
  within_limits content && short_numerals content.

(** The call forwards a message that carries this identifier. *)
Definition forwards (message_id : Z) (c : call) : Prop :=
  match c with
  | ForwardMessages _ message => Message.id message = message_id
  | _ => False
  end.

(** The file mirrors the set in memory: loading it returns that set. *)
Definition mirrored (st : cycle) : Prop :=
  load_forwarded_messages (disk st) = Return (forwarded_message_ids st).

(** A message is in range when it is not dated before the cutoff. *)
Definition in_range (cutoff_time : Z) (message : Message.t) : Prop :=
  cutoff_time <= Message.date message.

(** The record that the loop body builds for a text message, before any
    keyword is attached. *)
Definition record_of (message : Message.t) (text : string) : MessageData.t :=
  {| MessageData.id := Message.id message;
     MessageData.date := Message.date message;
     MessageData.text := text;
     MessageData.sender_name := sender_name (Message.sender message);
     MessageData.matching_keywords := None |}.

(** ** Vocabulary of the strings *)

(** [s.endswith(p)], as a proposition. *)
Definition ends_with (p s : string) : Prop := exists r, s = r +:+ p.

(** Every character of the string is white space. *)
Fixpoint blank (s : string) : bool :=
  match s with
  | EmptyString => true
  | String c s' => PyStr.isspace c && blank s'
  end.

Definition first_char (s : string) : option ascii :=
  match s with
  | EmptyString => None
  | String c _ => Some c
  end.

Fixpoint last_char (s : string) : option ascii :=
  match s with
  | EmptyString => None
  | String c EmptyString => Some c
  | String _ s' => last_char s'
  end.

(** [c.lower()] and [s.lower()] on ASCII text: the letters A-Z map 32
    places up, nothing else changes. *)
Definition ascii_lower_char (c : ascii) : ascii :=
  let n := nat_of_ascii c in
  if (65 <=? n)%nat && (n <=? 90)%nat then ascii_of_nat (n + 32) else c.

Fixpoint ascii_lower (s : string) : string :=
  match s with
  | EmptyString => EmptyString
  | String c s' => String (ascii_lower_char c) (ascii_lower s')
  end.

(** No white space at either end. *)
Definition trimmed (s : string) : Prop :=
  (forall c, first_char s = Some c -> PyStr.isspace c = false)
  /\ (forall c, last_char s = Some c -> PyStr.isspace c = false).

(** The characters of the numeral of an integer: the digits and the
    minus sign. *)
Definition numeral_char (c : ascii) : bool :=
  Json.is_digit c || Ascii.eqb c "-".

Fixpoint numeral (s : string) : bool :=
  match s with
  | EmptyString => true
  | String c s' => numeral_char c && numeral s'
  end.

(** ** Vocabulary of the sweep

    What one new match leaves in the log of calls: the header, and the
    forward when the header was sent. *)
Inductive attempt_outcome : Type :=
| HeaderFailed
| ForwardFailed
| Forwarded.

Record attempt : Type := {
  tried : Message.t;
  header : string;
  outcome : attempt_outcome
}.

Definition attempt_calls (target : string) (a : attempt) : list (call * bool) :=
  match outcome a with
  | HeaderFailed => [(SendMessage target (header a), false)]
  | ForwardFailed =>
      [(SendMessage target (header a), true);
       (ForwardMessages target (tried a), false)]
  | Forwarded =>
      [(SendMessage target (header a), true);
       (ForwardMessages target (tried a), true)]
  end.

Definition succeeded (a : attempt) : bool :=
  match outcome a with Forwarded => true | _ => false end.

(** The identifiers of the messages that the attempts forwarded. *)
Definition newly_forwarded (attempts : list attempt) : list Z :=
  map (fun a => Message.id (tried a)) (List.filter succeeded attempts).

(** The header of line 177. *)
Definition header_of (found : list string) (now date : Z) : string :=
  "🔥 Keyword match: " +:+ PyStr.join ", " found
    +:+ " (" +:+ time_ago (Time.diff now date) +:+ ")".


(** The same as a test, and the test for a text at all. *)
Definition has_text (message : Message.t) : bool :=
  match Message.text message with
  | Some text => PyStr.truthy text
  | None => false
  end.

Definition has_match (cfg : config) (message : Message.t) : bool :=
  match Message.text message with
  | Some text =>
      PyStr.truthy text
      && match matching_keywords (KEYWORDS cfg) text with
         | [] => false
         | _ :: _ => true
         end
  | None => false
  end.

(** The record of a text message as the loop first builds it, without
    keywords. *)
Definition seen (message : Message.t) : MessageData.t :=
  record_of message
    (match Message.text message with
     | Some text => text
     | None => EmptyString
     end).

(** A record without its keywords. *)
Definition bare (d : MessageData.t) : MessageData.t :=
  {| MessageData.id := MessageData.id d;
     MessageData.date := MessageData.date d;
     MessageData.text := MessageData.text d;
     MessageData.sender_name := MessageData.sender_name d;
     MessageData.matching_keywords := None |}.

Definition has_keywords (d : MessageData.t) : bool :=
  match MessageData.matching_keywords d with
  | Some _ => true
  | None => false
  end.

(** The keywords of a record, when it has any, are what the matcher
    finds in its text, and there is one at least. *)
Definition keywords_of_text (cfg : config) (d : MessageData.t) : Prop :=
  match MessageData.matching_keywords d with
  | None => True
  | Some found =>
      found = matching_keywords (KEYWORDS cfg) (MessageData.text d)
      /\ found <> []
  end.

(** What holds of every attempt of a sweep over [chat] that started
    with [store]: the message is one of the chat, in range, with a match
    and an identifier that was not in the store, and the header names the
    matched keywords and an age read off the clock. *)
Definition sound_attempt (cfg : config) (w : world) (cutoff_time : Z)
    (chat : list Message.t) (store : gset Z) (a : attempt) : Prop :=
  In (tried a) chat
  /\ in_range cutoff_time (tried a)
  /\ has_match cfg (tried a) = true
  /\ (Message.id (tried a) ∉ store)
  /\ exists text n,
       Message.text (tried a) = Some text
       /\ header a
          = header_of (matching_keywords (KEYWORDS cfg) text)
              (utcnow w n) (Message.date (tried a)).

(** The identifiers of the messages that the logged calls forwarded with
    success. *)
Definition forwarded_in (log : list (call * bool)) : list Z :=
  flat_map
    (fun entry =>
       match entry with
       | (ForwardMessages _ message, true) => [Message.id message]
       | _ => []
       end)
    log.

(** The calls that precede the loop. *)
Definition setup_call (c : call) : bool :=
  match c with
  | Connect | IsUserAuthorized | GetEntity _ => true
  | _ => false
  end.

(** The loop is reached: connecting, the login check and both lookups
    return, and the account is logged in. The calls are numbered from
    those already in the log. *)
Definition ready (w : world) (st : cycle) : bool :=
  let n := length (calls st) in
  negb (raises w n) && negb (raises w (S n)) && authorized w
  && negb (raises w (S (S n))) && negb (raises w (S (S (S n)))).

(** Two states that differ at most in the log of calls. *)
Definition same_but_calls (st st' : cycle) : Prop :=
  forwarded_message_ids st' = forwarded_message_ids st
  /\ disk st' = disk st
  /\ messages st' = messages st
  /\ matching_messages st' = matching_messages st
  /\ skipped_messages st' = skipped_messages st
  /\ clock st' = clock st.

(** The messages that the loop examines: those before the first one
    dated before the cutoff. *)
Fixpoint in_window (cutoff_time : Z) (chat : list Message.t)
  : list Message.t :=
  match chat with
  | [] => []
  | message :: later =>
      if Message.date message <? cutoff_time then []
      else message :: in_window cutoff_time later
  end.

(** Newest first: no message is dated after one that precedes it. *)
Definition newest_first (chat : list Message.t) : Prop :=
  StronglySorted (fun a b => Message.date b <= Message.date a) chat.

(** The identifiers forwarded with success over a run of turns. *)
Definition forwarded_over (turns : list turn) : list Z :=
  flat_map (fun t => forwarded_in (made t)) turns.


(** ** Scenarios

    Concrete configurations, messages and worlds on which the theorems
    below are instantiated. *)

Definition noon : Z := 1700000000000000.

Definition sample_config : config :=
  {| KEYWORDS := ["laptop"; "bike"]; FORWARD_TO_USERNAME := "me" |}.

(** [KEYWORDS=bike,] in the environment: a trailing comma. *)
Definition trailing_comma_config : config :=
  {| KEYWORDS := KEYWORDS_of_env (Some "bike,"); FORWARD_TO_USERNAME := "me" |}.

(** Five seconds old. *)
Definition laptop_ad : Message.t :=
  {| Message.id := 7;
     Message.date := noon - 5000000;
     Message.text := Some "Selling a used Laptop, great condition";
     Message.sender := Some (User (Some "Ann") None) |}.

(** Exactly one hour old. *)
Definition bike_ad : Message.t :=
  {| Message.id := 6;
     Message.date := noon - 3600000000;
     Message.text := Some "bike for sale";
     Message.sender := Some (Channel "Flea market") |}.

(** One microsecond more than an hour old. *)
Definition old_ad : Message.t :=
  {| Message.id := 5;
     Message.date := noon - 3600000001;
     Message.text := Some "old bike";
     Message.sender := None |}.

(** A photo without caption, one minute old. *)
Definition photo : Message.t :=
  {| Message.id := 8;
     Message.date := noon - 60000000;
     Message.text := None;
     Message.sender := Some (User (Some "Bob") (Some "Stone")) |}.

(** A world where every call returns and the clock stands at noon. *)
Definition calm : world :=
  {| utcnow := fun _ => noon;
     raises := fun _ => false;
     authorized := true;
     history := [laptop_ad; photo; bike_ad; old_ad] |}.

(** The same world, except that the second call made on the client
    raises: counted from a fresh state, the first forward. *)
Definition flaky : world :=
  {| utcnow := fun _ => noon;
     raises := fun n => (n =? 1)%nat;
     authorized := true;
     history := [laptop_ad; photo; bike_ad; old_ad] |}.

(** A world where connecting raises and every other call returns. *)
Definition offline : world :=
  {| utcnow := fun _ => noon;
     raises := fun n => (n =? 0)%nat;
     authorized := true;
     history := [laptop_ad; photo; bike_ad; old_ad] |}.

(** A world where every call returns but the last one of a cycle that
    finds the store holding the laptop ad: the disconnect. *)
Definition hangup : world :=
  {| utcnow := fun _ => noon;
     raises := fun n => (n =? 6)%nat;
     authorized := true;
     history := [laptop_ad; photo; bike_ad; old_ad] |}.

Definition my_credentials : Login.credentials :=
  {| Login.API_ID := 12345;
     Login.API_HASH := Some "0123456789abcdef";
     Login.PHONE_NUMBER := Some "+10000000000" |}.

(** An account with two-step verification that is not logged in yet:
    the sign-in with the code (the fourth call) asks for the password. *)
Definition two_step : Login.world :=
  {| Login.replies :=
       fun n => if (n =? 3)%nat
                then Login.Raises Login.SessionPasswordNeededError
                else Login.Returns;
     Login.logged_in := false;
     Login.typed := fun n => if (n =? 0)%nat then "12345" else "secret" |}.


(** * Properties *)

(** ** Strings *)

Section StringFacts.

Lemma append_nil_l (s : string) : "" +:+ s = s.
Proof. reflexivity. Qed.

Lemma append_cons (c : ascii) (s t : string) :
  String c s +:+ t = String c (s +:+ t).
Proof. reflexivity. Qed.

Lemma append_nil_r (s : string) : s +:+ "" = s.
Proof.
  induction s as [|c s IH]; [reflexivity | by rewrite append_cons, IH].
Qed.

Lemma append_assoc (a b c : string) : (a +:+ b) +:+ c = a +:+ b +:+ c.
Proof.
  induction a as [|x a IH]; [reflexivity | by rewrite !append_cons, IH].
Qed.

Lemma append_length (a b : string) :
  String.length (a +:+ b) = (String.length a + String.length b)%nat.
Proof.
  induction a as [|x a IH]; [reflexivity |].
  rewrite append_cons. simpl. by rewrite IH.
Qed.

Lemma lower_empty : PyStr.lower "" = "".
Proof. reflexivity. Qed.

(** [startswith] decides "is a prefix of". *)
Lemma startswith_spec (p s : string) :
  PyStr.startswith p s = true <-> exists r, s = p +:+ r.
Proof.
  revert s; induction p as [|a p IH]; intros s; simpl.
  - split; [intros _; by exists s | done].
  - destruct s as [|b s].
    + split; [done | intros [r Hr]; discriminate].
    + rewrite andb_true_iff, Ascii.eqb_eq, IH. split.
      * intros [-> [r ->]]. by exists r.
      * intros [r Hr]. injection Hr as -> ->. split; [done | by exists r].
Qed.

(** [contains] decides "occurs in". *)
Lemma contains_spec (n h : string) :
  PyStr.contains n h = true <-> is_substring n h.
Proof.
  unfold is_substring. induction h as [|c h IH].
  - simpl. rewrite orb_false_r, startswith_spec. split.
    + intros [r Hr]. by exists "", r.
    + intros [pre [post H]]. destruct pre; [by exists post | discriminate].
  - cbn [PyStr.contains]. rewrite orb_true_iff, startswith_spec, IH. split.
    + intros [[r Hr] | [pre [post Hr]]].
      * by exists "", r.
      * exists (String c pre), post. simpl. by rewrite Hr.
    + intros [pre [post H]]. destruct pre as [|x pre].
      * left. by exists post.
      * right. injection H as _ H. by exists pre, post.
Qed.

Lemma contains_empty (h : string) : PyStr.contains "" h = true.
Proof. destruct h; reflexivity. Qed.

End StringFacts.

(** ** Keyword Matcher *)

Section Matcher.

Variable T : string.

(** The appending loop is a filter, whatever it has accumulated. *)
Lemma matching_keywords_loop_filter (K acc : list string) :
  matching_keywords_loop (PyStr.lower T) K acc
  = acc ++ matchedKeywords_spec K T.
Proof.
  unfold matching_keywords_loop, matchedKeywords_spec.
  revert acc; induction K as [|k K IH]; intros acc; simpl.
  - by rewrite app_nil_r.
  - destruct (PyStr.contains (PyStr.lower k) (PyStr.lower T)).
    + rewrite IH, <- app_assoc. reflexivity.
    + apply IH.
Qed.

Lemma matching_keywords_filter (K : list string) :
  matching_keywords K T = matchedKeywords_spec K T.
Proof. unfold matching_keywords. by rewrite matching_keywords_loop_filter. Qed.

Lemma matching_keywords_In (K : list string) (k : string) :
  In k (matching_keywords K T)
  <-> In k K /\ is_substring (PyStr.lower k) (PyStr.lower T).
Proof.
  rewrite matching_keywords_filter. unfold matchedKeywords_spec.
  rewrite List.filter_In, contains_spec. reflexivity.
Qed.

Lemma empty_keyword_found (K : list string) :
  In "" K -> matching_keywords K T <> [].
Proof.
  intros HK Hnil.
  assert (Hin : In "" (matching_keywords K T)).
  { apply matching_keywords_In. split; [exact HK |].
    exists "", (PyStr.lower T). reflexivity. }
  rewrite Hnil in Hin. destruct Hin.
Qed.

End Matcher.

(** C2. For every keyword list K and every text T, the matcher returns
    exactly the keywords k of K, in the order of K, whose lower-cased
    form is a substring of the lower-cased text: the list computed by
    the loop is the filter of K by that test, and a keyword is in it if
    and only if it is in K and its lower-cased form occurs, as a plain
    substring, in the lower-cased text. *)
Theorem matched_keywords_are_the_contained_ones (K : list string) (T : string) :
  matching_keywords K T = matchedKeywords_spec K T
  /\ forall k, In k (matching_keywords K T)
               <-> In k K /\ is_substring (PyStr.lower k) (PyStr.lower T).
Proof.
  split.
  - apply matching_keywords_filter.
  - intros k. apply matching_keywords_In.
Qed.

(** The scenario of the specification: case is folded, the keyword may
    sit inside a word, and a keyword that does not occur is left out. *)
Example matcher_on_the_laptop_ad :
  matching_keywords ["laptop"; "bike"] "Selling a used Laptop, great condition"
  = ["laptop"].
Proof. reflexivity. Qed.

Example matcher_knows_no_word_boundary :
  matching_keywords ["bike"; "BIKES"] "Two motorbikes" = ["bike"; "BIKES"].
Proof. reflexivity. Qed.

(** An unset [KEYWORDS] variable, like a trailing comma, yields the empty
    keyword. *)
Example KEYWORDS_unset : KEYWORDS_of_env None = [EmptyString].
Proof. reflexivity. Qed.

Example KEYWORDS_trailing_comma :
  KEYWORDS_of_env (Some "laptop,bike,") = ["laptop"; "bike"; EmptyString].
Proof. reflexivity. Qed.

(** ** Decimal numerals *)

Section Numerals.

Lemma uint_digits_start (d : uint) (rest : string) :
  d <> Nil -> number_start (NilEmpty.string_of_uint d +:+ rest).
Proof. destruct d; intros Hd; try (left; reflexivity). by destruct Hd. Qed.

Lemma of_int_start (z : Z) (rest : string) :
  number_start (PyStr.of_int z +:+ rest).
Proof.
  unfold PyStr.of_int. destruct z as [|p|p]; simpl.
  - left; reflexivity.
  - apply uint_digits_start, Unsigned.to_uint_nonnil.
  - right. split; [reflexivity |].
    pose proof (Unsigned.to_uint_nonnil p) as Hd.
    destruct (Pos.to_uint p); try reflexivity. by destruct Hd.
Qed.

Lemma number_start_nonempty (s : string) :
  number_start s -> (1 <= String.length s)%nat.
Proof. destruct s; simpl; [tauto | lia]. Qed.

Lemma span_digits_uint (d : uint) (rest : string) :
  delimited rest ->
  Json.span_digits (NilEmpty.string_of_uint d +:+ rest)
  = (NilEmpty.string_of_uint d, rest).
Proof.
  intros [r Hr].
  induction d; simpl NilEmpty.string_of_uint;
    try (rewrite append_cons; cbn [Json.span_digits];
         change (Json.is_digit _) with true; cbv iota;
         rewrite IHd; reflexivity).
  destruct Hr as [-> | ->]; reflexivity.
Qed.

(** The numeral of a positive number has no leading zero. *)
Lemma to_uint_head (p : positive) :
  match Pos.to_uint p with Nil | D0 _ => False | _ => True end.
Proof.
  pose proof (Unsigned.to_uint_nonnil p) as Hnil.
  pose proof (Unsigned.to_uint_nonzero p) as Hzero.
  assert (Hnorm : unorm (Pos.to_uint p) = Pos.to_uint p).
  { rewrite <- (DecimalPos.Unsigned.to_of (Pos.to_uint p)).
    rewrite DecimalPos.Unsigned.of_to. reflexivity. }
  destruct (Pos.to_uint p) as [|d| | | | | | | | |] eqn:E; try exact I.
  - by destruct Hnil.
  - destruct (uint_eq_dec (nzhead (D0 d)) Nil) as [Hn | Hn].
    + apply unorm_0 in Hn. rewrite Hn in Hnorm. by destruct Hzero.
    + rewrite (unorm_nzhead _ Hn) in Hnorm.
      by apply nzhead_nonzero in Hnorm.
Qed.

Lemma match_integer_N (n : N) (rest : string) :
  delimited rest ->
  Json.match_integer (NilEmpty.string_of_uint (N.to_uint n) +:+ rest)
  = Some (NilEmpty.string_of_uint (N.to_uint n), rest).
Proof.
  intros Hrest. destruct n as [|p]; [reflexivity |].
  cbn [N.to_uint]. pose proof (to_uint_head p) as Hhead.
  destruct (Pos.to_uint p) eqn:E; try (by destruct Hhead);
    simpl NilEmpty.string_of_uint; rewrite append_cons;
    unfold Json.match_integer;
    change (Ascii.eqb _ "0") with false;
    change (Json.is_digit _) with true; cbv iota;
    rewrite (span_digits_uint _ _ Hrest); reflexivity.
Qed.

End Numerals.

(** ** Decoding what the encoder wrote *)

Section JsonRoundTrip.

Lemma match_frac_delimited (rest : string) :
  delimited rest -> Json.match_frac rest = None.
Proof. intros [r [-> | ->]]; reflexivity. Qed.

Lemma match_exp_delimited (rest : string) :
  delimited rest -> Json.match_exp rest = None.
Proof. intros [r [-> | ->]]; reflexivity. Qed.

Lemma match_unsigned_integer (sign : string) (n : N) (rest : string) :
  delimited rest ->
  Json.match_unsigned sign (NilEmpty.string_of_uint (N.to_uint n) +:+ rest)
  = match NilEmpty.int_of_string
            (sign +:+ NilEmpty.string_of_uint (N.to_uint n)) with
    | Some d => Some (Json.Int (Z.of_int d), rest)
    | None => None
    end.
Proof.
  intros Hrest. unfold Json.match_unsigned.
  rewrite (match_integer_N _ _ Hrest).
  rewrite (match_frac_delimited _ Hrest), (match_exp_delimited _ Hrest).
  reflexivity.
Qed.

(** The scanner reads back the numeral of any integer. *)
Lemma match_number_of_int (z : Z) (rest : string) :
  delimited rest ->
  Json.match_number (PyStr.of_int z +:+ rest) = Some (Json.Int z, rest).
Proof.
  intros Hrest.
  assert (Hback : NilEmpty.int_of_string (PyStr.of_int z) = Some (Z.to_int z))
    by apply NilEmpty.isi.
  assert (Hval : Z.of_int (Z.to_int z) = z) by apply DecimalZ.of_to.
  unfold PyStr.of_int in *. destruct z as [|p|p].
  - change (Z.to_int 0) with (Pos (N.to_uint 0)) in *.
    cbn [NilEmpty.string_of_int] in *.
    change (Json.match_number
              (NilEmpty.string_of_uint (N.to_uint 0) +:+ rest))
      with (Json.match_unsigned ""
              (NilEmpty.string_of_uint (N.to_uint 0) +:+ rest)).
    rewrite (match_unsigned_integer _ _ _ Hrest), append_nil_l, Hback, Hval.
    reflexivity.
  - change (Z.to_int (Z.pos p)) with (Pos (N.to_uint (N.pos p))) in *.
    cbn [NilEmpty.string_of_int] in *.
    assert (Hsign :
      Json.match_number
        (NilEmpty.string_of_uint (N.to_uint (N.pos p)) +:+ rest)
      = Json.match_unsigned ""
          (NilEmpty.string_of_uint (N.to_uint (N.pos p)) +:+ rest)).
    { cbn [N.to_uint]. pose proof (to_uint_head p) as Hhead.
      destruct (Pos.to_uint p); try (by destruct Hhead); reflexivity. }
    rewrite Hsign, (match_unsigned_integer _ _ _ Hrest), append_nil_l.
    rewrite Hback, Hval. reflexivity.
  - change (Z.to_int (Z.neg p)) with (Neg (N.to_uint (N.pos p))) in *.
    cbn [NilEmpty.string_of_int] in *. rewrite append_cons.
    change (Json.match_number
              (String "-"
                 (NilEmpty.string_of_uint (N.to_uint (N.pos p)) +:+ rest)))
      with (Json.match_unsigned "-"
              (NilEmpty.string_of_uint (N.to_uint (N.pos p)) +:+ rest)).
    rewrite (match_unsigned_integer _ _ _ Hrest).
    change ("-" +:+ ?s) with (String "-" s).
    rewrite Hback, Hval. reflexivity.
Qed.

(** On a text that starts like a number, [scan_once] is the number
    scanner: no other alternative of the scanner applies. *)
Lemma scan_once_number (fuel : nat) (s : string) :
  number_start s -> Json.scan_once (S fuel) s = Json.match_number s.
Proof.
  destruct s as [|c t]; [intros [] |]. intros [Hc | [-> Ht]].
  - destruct c as [[] [] [] [] [] [] [] []]; try discriminate Hc;
      reflexivity.
  - destruct t as [|c' t']; [destruct Ht |].
    destruct c' as [[] [] [] [] [] [] [] []]; try discriminate Ht;
      reflexivity.
Qed.

Lemma skip_ws_number (s : string) : number_start s -> Json.skip_ws s = s.
Proof.
  destruct s as [|c t]; [intros [] |]. intros [Hc | [-> _]]; [| reflexivity].
  destruct c as [[] [] [] [] [] [] [] []]; try discriminate Hc; reflexivity.
Qed.

Lemma number_start_not_closing (s : string) :
  number_start s ->
  exists c t, s = String c t /\ Ascii.eqb c "]" = false.
Proof.
  destruct s as [|c t]; [intros [] |]. intros H. exists c, t.
  split; [reflexivity |]. destruct H as [Hc | [-> _]]; [| reflexivity].
  destruct c as [[] [] [] [] [] [] [] []]; try discriminate Hc; reflexivity.
Qed.

Lemma scan_once_of_int (fuel : nat) (z : Z) (rest : string) :
  delimited rest ->
  Json.scan_once (S fuel) (PyStr.of_int z +:+ rest) = Some (Json.Int z, rest).
Proof.
  intros Hrest. rewrite scan_once_number by apply of_int_start.
  by apply match_number_of_int.
Qed.

Lemma JSONArray_eq (fuel : nat) (s : string) (values : list Json.value) :
  Json.JSONArray (S fuel) s values
  = match Json.scan_once fuel s with
    | None => None
    | Some (v, r) =>
        match Json.skip_ws r with
        | String c r' =>
            if Ascii.eqb c "]" then Some (Json.Arr (values ++ [v]), r')
            else if Ascii.eqb c ","
            then Json.JSONArray fuel (Json.skip_ws r') (values ++ [v])
            else None
        | EmptyString => None
        end
    end.
Proof. reflexivity. Qed.

(** The element loop reads back a dumped, non-empty list of integers,
    given one unit of fuel per element and one more. *)
Lemma JSONArray_ints (ids : list Z) :
  forall (fuel : nat) (z : Z) (values : list Json.value) (rest : string),
    (length ids + 2 <= fuel)%nat ->
    Json.JSONArray fuel
      (PyStr.join ", " (map PyStr.of_int (z :: ids)) +:+ "]" +:+ rest) values
    = Some (Json.Arr (values ++ map Json.Int (z :: ids)), rest).
Proof.
  induction ids as [|z' ids IH]; intros fuel z values rest Hfuel.
  - destruct fuel as [|[|fuel]]; simpl in Hfuel; try lia.
    rewrite JSONArray_eq. cbn [map PyStr.join].
    rewrite scan_once_of_int by (by exists rest; right).
    reflexivity.
  - destruct fuel as [|[|fuel]]; simpl in Hfuel; try lia.
    rewrite JSONArray_eq.
    change (PyStr.join ", " (map PyStr.of_int (z :: z' :: ids)))
      with (PyStr.of_int z +:+ ", "
              +:+ PyStr.join ", " (map PyStr.of_int (z' :: ids))).
    rewrite !append_assoc.
    change (", " +:+ ?s) with (String "," (String " " s)).
    rewrite scan_once_of_int by (by eexists; left).
    cbn [Json.skip_ws]. change (Json.is_ws ",") with false.
    change (Json.is_ws " ") with true. cbv iota.
    change (Ascii.eqb "," "]") with false.
    change (Ascii.eqb "," ",") with true. cbv iota.
    assert (Hstart : number_start
      (PyStr.join ", " (map PyStr.of_int (z' :: ids)) +:+ "]" +:+ rest)).
    { destruct ids; cbn [map PyStr.join]; rewrite ?append_assoc;
        apply of_int_start. }
    change (Json.skip_ws (String " " ?s)) with (Json.skip_ws s).
    rewrite (skip_ws_number _ Hstart).
    rewrite IH by (simpl; lia).
    rewrite <- app_assoc. reflexivity.
Qed.

Lemma join_of_int_length (ids : list Z) :
  (length ids <= String.length (PyStr.join ", " (map PyStr.of_int ids)))%nat.
Proof.
  induction ids as [|z [|z' ids] IH]; [simpl; lia | |].
  - cbn [map PyStr.join length].
    pose proof (number_start_nonempty _ (of_int_start z "")) as H.
    by rewrite append_nil_r in H.
  - change (PyStr.join ", " (map PyStr.of_int (z :: z' :: ids)))
      with (PyStr.of_int z +:+ ", "
              +:+ PyStr.join ", " (map PyStr.of_int (z' :: ids))).
    rewrite !append_length. change (String.length ", ") with 2%nat.
    simpl length in *. lia.
Qed.

(** [json.loads(json.dumps(ids)) == ids] for every list of integers. *)
Lemma loads_dumps (ids : list Z) :
  Json.loads (Json.dumps ids) = Some (Json.Arr (map Json.Int ids)).
Proof.
  unfold Json.loads, Json.dumps.
  change ("[" +:+ ?s) with (String "[" s).
  pose proof (join_of_int_length ids) as Hlen.
  change (Json.skip_ws (String "[" ?s)) with (String "[" s).
  destruct ids as [|z ids]; [reflexivity |].
  replace (2 * String.length
             (String "[" (PyStr.join ", " (map PyStr.of_int (z :: ids))
                            +:+ "]")) + 1)%nat
    with (S (S (S (2 * String.length
                     (PyStr.join ", " (map PyStr.of_int (z :: ids))
                        +:+ "]")))))
    by (simpl String.length; lia).
  set (fuel := S (S (2 * _))).
  assert (Hstart : number_start
    (PyStr.join ", " (map PyStr.of_int (z :: ids)) +:+ "]" +:+ "")).
  { destruct ids; cbn [map PyStr.join]; rewrite ?append_assoc;
      apply of_int_start. }
  change "]" with ("]" +:+ "").
  change (Json.scan_once (S fuel) (String "[" ?r))
    with (match Json.skip_ws r with
          | String c' r' =>
              if Ascii.eqb c' "]" then Some (Json.Arr [], r')
              else Json.JSONArray fuel (String c' r') []
          | EmptyString => None
          end).
  rewrite (skip_ws_number _ Hstart).
  destruct (number_start_not_closing _ Hstart) as (c & t & Hs & Hc).
  rewrite Hs, Hc, <- Hs.
  rewrite JSONArray_ints; [reflexivity |].
  subst fuel. rewrite append_length. simpl length in *. lia.
Qed.

End JsonRoundTrip.

(** ** The fuel of the decoder *)

Section JsonFuel.

Local Open Scope nat_scope.

Abbreviation len := String.length.

Lemma skip_ws_le (s : string) : len (Json.skip_ws s) <= len s.
Proof.
  induction s as [|c s IH]; cbn [Json.skip_ws]; [done |].
  destruct (Json.is_ws c); cbn [String.length]; lia.
Qed.

Lemma span_digits_le (s : string) : len (snd (Json.span_digits s)) <= len s.
Proof.
  induction s as [|c s IH]; cbn [Json.span_digits]; [done |].
  destruct (Json.is_digit c); [| done].
  destruct (Json.span_digits s) as [ds r]. cbn [snd String.length] in *. lia.
Qed.

Lemma strip_prefix_length (p s r : string) :
  Json.strip_prefix p s = Some r -> len s = len p + len r.
Proof.
  revert s; induction p as [|a p IH]; intros s; cbn [Json.strip_prefix].
  - by intros [= ->].
  - destruct s as [|b s]; [done |].
    destruct (Ascii.eqb a b); [| done].
    intros H. apply IH in H. cbn [String.length]. lia.
Qed.

Lemma match_integer_lt (s i r : string) :
  Json.match_integer s = Some (i, r) -> len r < len s.
Proof.
  unfold Json.match_integer. destruct s as [|c s]; [done |].
  destruct (Ascii.eqb c "0"); [intros [= _ <-]; cbn; lia |].
  destruct (Json.is_digit c); [| done].
  pose proof (span_digits_le s) as Hle.
  destruct (Json.span_digits s) as [ds r']. intros [= _ <-].
  cbn [snd String.length] in *. lia.
Qed.

Lemma match_frac_lt (s f r : string) :
  Json.match_frac s = Some (f, r) -> len r < len s.
Proof.
  unfold Json.match_frac. destruct s as [|c s]; [done |].
  destruct (Ascii.eqb c "."); [| done].
  pose proof (span_digits_le s) as Hle.
  destruct (Json.span_digits s) as [[|d ds] r']; [done |]. intros [= _ <-].
  cbn [snd String.length] in *. lia.
Qed.

Lemma match_exp_lt (s e r : string) :
  Json.match_exp s = Some (e, r) -> len r < len s.
Proof.
  unfold Json.match_exp. destruct s as [|c s]; [done |].
  destruct (Ascii.eqb c "e" || Ascii.eqb c "E"); [| done].
  destruct s as [|c' s'].
  - cbn. done.
  - destruct (Ascii.eqb c' "+" || Ascii.eqb c' "-").
    + pose proof (span_digits_le s') as Hle.
      destruct (Json.span_digits s') as [[|d ds] r']; [done |].
      intros [= _ <-]. cbn [snd String.length] in *. lia.
    + pose proof (span_digits_le (String c' s')) as Hle.
      destruct (Json.span_digits (String c' s')) as [[|d ds] r']; [done |].
      intros [= _ <-]. cbn [snd String.length] in *. lia.
Qed.

Lemma match_unsigned_lt (sign s : string) (v : Json.value) (r : string) :
  Json.match_unsigned sign s = Some (v, r) -> len r < len s.
Proof.
  unfold Json.match_unsigned.
  destruct (Json.match_integer s) as [[i s2]|] eqn:Hi; [| done].
  apply match_integer_lt in Hi.
  assert (Hfrac : forall f s3,
    match Json.match_frac s2 with
    | Some (f, r) => (f, r) | None => (EmptyString, s2)
    end = (f, s3) -> len s3 <= len s2).
  { intros f s3. destruct (Json.match_frac s2) as [[f' r']|] eqn:Hf.
    - apply match_frac_lt in Hf. intros [= _ <-]. lia.
    - by intros [= _ <-]. }
  destruct (match Json.match_frac s2 with
            | Some (f, r) => (f, r) | None => (EmptyString, s2)
            end) as [frac s3] eqn:Hf3.
  specialize (Hfrac _ _ eq_refl).
  assert (Hexp : forall e s4,
    match Json.match_exp s3 with
    | Some (e, r) => (e, r) | None => (EmptyString, s3)
    end = (e, s4) -> len s4 <= len s3).
  { intros e s4. destruct (Json.match_exp s3) as [[e' r']|] eqn:He.
    - apply match_exp_lt in He. intros [= _ <-]. lia.
    - by intros [= _ <-]. }
  destruct (match Json.match_exp s3 with
            | Some (e, r) => (e, r) | None => (EmptyString, s3)
            end) as [exp s4] eqn:He4.
  specialize (Hexp _ _ eq_refl).
  destruct frac, exp;
    try (intros [= _ <-]; lia).
  destruct (NilEmpty.int_of_string _); [| done]. intros [= _ <-]. lia.
Qed.

Lemma match_number_lt (s : string) (v : Json.value) (r : string) :
  Json.match_number s = Some (v, r) -> len r < len s.
Proof.
  unfold Json.match_number. destruct s as [|c s]; [done |].
  destruct (Ascii.eqb c "-"); intros H; apply match_unsigned_lt in H;
    cbn [String.length] in *; lia.
Qed.

Lemma scan_constant_lt (s : string) (v : Json.value) (r : string) :
  Json.scan_constant s = Some (v, r) -> len r < len s.
Proof.
  unfold Json.scan_constant.
  repeat match goal with
  | |- context [Json.strip_prefix ?p s] =>
      let H := fresh "H" in
      destruct (Json.strip_prefix p s) eqn:H;
        [apply strip_prefix_length in H; cbn [String.length] in H;
         intros [= _ <-]; lia |]
  end.
  done.
Qed.

Lemma scanstring_lt_aux (n : nat) :
  forall (s body r : string),
    len s <= n -> Json.scanstring s = Some (body, r) -> len r < len s.
Proof.
  induction n as [|n IH]; intros s body r Hn.
  - destruct s; [done | cbn in Hn; lia].
  - destruct s as [|c s']; [done |]. cbn [Json.scanstring String.length] in *.
    destruct (Ascii.eqb c Json.quote); [intros [= _ <-]; lia |].
    destruct (nat_of_ascii c <? 32); [done |].
    destruct (Ascii.eqb c "\").
    + destruct s' as [|e s'']; [done |]. cbn [String.length] in *.
      destruct (Ascii.eqb e "u").
      * destruct s'' as [|h1 [|h2 [|h3 [|h4 r0]]]]; try done.
        destruct (Json.is_hex h1 && Json.is_hex h2 && Json.is_hex h3
                  && Json.is_hex h4); [| done].
        destruct (Json.scanstring r0) as [[b0 r1]|] eqn:Hrec; [| done].
        apply IH in Hrec; [| cbn [String.length] in *; lia].
        intros [= _ <-]. cbn [String.length] in *. lia.
      * destruct (_ || _); [| done].
        destruct (Json.scanstring s'') as [[b0 r1]|] eqn:Hrec; [| done].
        apply IH in Hrec; [| lia]. intros [= _ <-]. lia.
    + destruct (Json.scanstring s') as [[b0 r1]|] eqn:Hrec; [| done].
      apply IH in Hrec; [| lia]. intros [= _ <-]. lia.
Qed.

Lemma scanstring_lt (s body r : string) :
  Json.scanstring s = Some (body, r) -> len r < len s.
Proof. by apply (scanstring_lt_aux (len s)). Qed.

Lemma scan_once_eq (fuel : nat) (s : string) :
  Json.scan_once (S fuel) s
  = match s with
    | EmptyString => None
    | String c r =>
        if Ascii.eqb c Json.quote then
          match Json.scanstring r with
          | Some (body, rest) => Some (Json.Str body, rest)
          | None => None
          end
        else if Ascii.eqb c "{" then
          match Json.skip_ws r with
          | String c' r' =>
              if Ascii.eqb c' "}" then Some (Json.Obj [], r')
              else Json.JSONObject fuel (String c' r') []
          | EmptyString => None
          end
        else if Ascii.eqb c "[" then
          match Json.skip_ws r with
          | String c' r' =>
              if Ascii.eqb c' "]" then Some (Json.Arr [], r')
              else Json.JSONArray fuel (String c' r') []
          | EmptyString => None
          end
        else
          match Json.scan_constant s with
          | Some found => Some found
          | None => Json.match_number s
          end
    end.
Proof. reflexivity. Qed.

Lemma JSONObject_eq (fuel : nat) (s : string)
    (pairs : list (string * Json.value)) :
  Json.JSONObject (S fuel) s pairs
  = match s with
    | String q s1 =>
        if Ascii.eqb q Json.quote then
          match Json.scanstring s1 with
          | None => None
          | Some (key, s2) =>
              match Json.skip_ws s2 with
              | String colon s3 =>
                  if Ascii.eqb colon ":" then
                    match Json.scan_once fuel (Json.skip_ws s3) with
                    | None => None
                    | Some (v, s4) =>
                        match Json.skip_ws s4 with
                        | String c s5 =>
                            if Ascii.eqb c "}"
                            then Some (Json.Obj (pairs ++ [(key, v)]), s5)
                            else if Ascii.eqb c ","
                            then Json.JSONObject fuel (Json.skip_ws s5)
                                   (pairs ++ [(key, v)])
                            else None
                        | EmptyString => None
                        end
                    end
                  else None
              | EmptyString => None
              end
          end
        else None
    | EmptyString => None
    end.
Proof. reflexivity. Qed.

(** Every scanner consumes at least one character. *)
Lemma scanners_progress (fuel : nat) :
  (forall s v r, Json.scan_once fuel s = Some (v, r) -> len r < len s)
  /\ (forall s values v r,
        Json.JSONArray fuel s values = Some (v, r) -> len r < len s)
  /\ (forall s pairs v r,
        Json.JSONObject fuel s pairs = Some (v, r) -> len r < len s).
Proof.
  induction fuel as [|fuel (IHscan & IHarr & IHobj)];
    [repeat split; intros; discriminate |].
  repeat split.
  - intros s v r. rewrite scan_once_eq. destruct s as [|c s']; [done |].
    cbn [String.length].
    destruct (Ascii.eqb c Json.quote).
    { destruct (Json.scanstring s') as [[b r']|] eqn:Hs; [| done].
      apply scanstring_lt in Hs. intros [= _ <-]. lia. }
    destruct (Ascii.eqb c "{").
    { pose proof (skip_ws_le s') as Hws.
      destruct (Json.skip_ws s') as [|c' r']; [done |].
      cbn [String.length] in Hws.
      destruct (Ascii.eqb c' "}"); [intros [= _ <-]; lia |].
      intros H. apply IHobj in H. cbn [String.length] in H. lia. }
    destruct (Ascii.eqb c "[").
    { pose proof (skip_ws_le s') as Hws.
      destruct (Json.skip_ws s') as [|c' r']; [done |].
      cbn [String.length] in Hws.
      destruct (Ascii.eqb c' "]"); [intros [= _ <-]; lia |].
      intros H. apply IHarr in H. cbn [String.length] in H. lia. }
    destruct (Json.scan_constant (String c s')) as [[v' r']|] eqn:Hc.
    { apply scan_constant_lt in Hc. intros [= _ <-].
      cbn [String.length] in Hc. lia. }
    intros H. apply match_number_lt in H. cbn [String.length] in H. lia.
  - intros s values v r. rewrite JSONArray_eq.
    destruct (Json.scan_once fuel s) as [[v1 r1]|] eqn:H1; [| done].
    apply IHscan in H1. pose proof (skip_ws_le r1) as Hws.
    destruct (Json.skip_ws r1) as [|c r2]; [done |].
    cbn [String.length] in Hws.
    destruct (Ascii.eqb c "]"); [intros [= _ <-]; lia |].
    destruct (Ascii.eqb c ","); [| done].
    intros H. apply IHarr in H. pose proof (skip_ws_le r2). lia.
  - intros s pairs v r. rewrite JSONObject_eq.
    destruct s as [|q s1]; [done |]. cbn [String.length].
    destruct (Ascii.eqb q Json.quote); [| done].
    destruct (Json.scanstring s1) as [[key s2]|] eqn:Hk; [| done].
    apply scanstring_lt in Hk. pose proof (skip_ws_le s2) as Hws2.
    destruct (Json.skip_ws s2) as [|colon s3]; [done |].
    cbn [String.length] in Hws2.
    destruct (Ascii.eqb colon ":"); [| done].
    pose proof (skip_ws_le s3) as Hws3.
    destruct (Json.scan_once fuel (Json.skip_ws s3)) as [[v1 s4]|] eqn:H1;
      [| done].
    apply IHscan in H1. pose proof (skip_ws_le s4) as Hws4.
    destruct (Json.skip_ws s4) as [|c s5]; [done |].
    cbn [String.length] in Hws4.
    destruct (Ascii.eqb c "}"); [intros [= _ <-]; lia |].
    destruct (Ascii.eqb c ","); [| done].
    intros H. apply IHobj in H. pose proof (skip_ws_le s5). lia.
Qed.

(** With twice the length of the text as fuel (and one more inside a
    loop), more fuel changes nothing. *)
Lemma fuel_is_enough (fuel : nat) :
  (forall s more,
      2 * len s <= fuel -> fuel <= more ->
      Json.scan_once more s = Json.scan_once fuel s)
  /\ (forall s values more,
        2 * len s + 1 <= fuel -> fuel <= more ->
        Json.JSONArray more s values = Json.JSONArray fuel s values)
  /\ (forall s pairs more,
        2 * len s + 1 <= fuel -> fuel <= more ->
        Json.JSONObject more s pairs = Json.JSONObject fuel s pairs).
Proof.
  induction fuel as [|fuel (IHscan & IHarr & IHobj)].
  - repeat split; intros; try lia.
    destruct s; [| cbn [String.length] in *; lia]. by destruct more.
  - destruct (scanners_progress fuel) as (Pscan & _ & _).
    repeat split.
    + intros s more Hlen Hmore. destruct more as [|more]; [lia |].
      rewrite !scan_once_eq. destruct s as [|c s']; [done |].
      cbn [String.length] in Hlen.
      destruct (Ascii.eqb c Json.quote); [done |].
      destruct (Ascii.eqb c "{").
      { pose proof (skip_ws_le s') as Hws.
        destruct (Json.skip_ws s') as [|c' r']; [done |].
        cbn [String.length] in Hws.
        destruct (Ascii.eqb c' "}"); [done |].
        apply IHobj; cbn [String.length]; lia. }
      destruct (Ascii.eqb c "["); [| done].
      pose proof (skip_ws_le s') as Hws.
      destruct (Json.skip_ws s') as [|c' r']; [done |].
      cbn [String.length] in Hws.
      destruct (Ascii.eqb c' "]"); [done |].
      apply IHarr; cbn [String.length]; lia.
    + intros s values more Hlen Hmore. destruct more as [|more]; [lia |].
      rewrite !JSONArray_eq. rewrite (IHscan s more) by lia.
      destruct (Json.scan_once fuel s) as [[v1 r1]|] eqn:H1; [| done].
      apply Pscan in H1. pose proof (skip_ws_le r1) as Hws.
      destruct (Json.skip_ws r1) as [|c r2]; [done |].
      cbn [String.length] in Hws.
      destruct (Ascii.eqb c "]"); [done |].
      destruct (Ascii.eqb c ","); [| done].
      pose proof (skip_ws_le r2). apply IHarr; lia.
    + intros s pairs more Hlen Hmore. destruct more as [|more]; [lia |].
      rewrite !JSONObject_eq. destruct s as [|q s1]; [done |].
      cbn [String.length] in Hlen.
      destruct (Ascii.eqb q Json.quote); [| done].
      destruct (Json.scanstring s1) as [[key s2]|] eqn:Hk; [| done].
      apply scanstring_lt in Hk. pose proof (skip_ws_le s2) as Hws2.
      destruct (Json.skip_ws s2) as [|colon s3]; [done |].
      cbn [String.length] in Hws2.
      destruct (Ascii.eqb colon ":"); [| done].
      pose proof (skip_ws_le s3) as Hws3.
      rewrite (IHscan (Json.skip_ws s3) more) by lia.
      destruct (Json.scan_once fuel (Json.skip_ws s3)) as [[v1 s4]|] eqn:H1;
        [| done].
      apply Pscan in H1. pose proof (skip_ws_le s4) as Hws4.
      destruct (Json.skip_ws s4) as [|c s5]; [done |].
      cbn [String.length] in Hws4.
      destruct (Ascii.eqb c "}"); [done |].
      destruct (Ascii.eqb c ","); [| done].
      pose proof (skip_ws_le s5). apply IHobj; lia.
Qed.

(** [loads] does not depend on its fuel: the decoder's verdict on a
    text, a value or an error, is the same with any larger bound. *)
Lemma loads_fuel (s : string) (more : nat) :
  2 * len s + 1 <= more ->
  Json.scan_once more (Json.skip_ws s)
  = Json.scan_once (2 * len s + 1) (Json.skip_ws s).
Proof.
  intros Hmore. pose proof (skip_ws_le s).
  apply (proj1 (fuel_is_enough (2 * len s + 1))); lia.
Qed.

End JsonFuel.

(** ** Duplicate Store *)

Section Store.

Lemma all_ints_map_Int (ids : list Z) :
  all_ints (map Json.Int ids) = Some ids.
Proof. induction ids as [|z ids IH]; simpl; [done | by rewrite IH]. Qed.

Lemma hashable_map_Int (ids : list Z) :
  existsb unhashable (map Json.Int ids) = false.
Proof. induction ids as [|z ids IH]; simpl; done. Qed.

Lemma py_set_ints (ids : list Z) :
  py_set (Json.Arr (map Json.Int ids)) = Return (list_to_set ids).
Proof. simpl. by rewrite hashable_map_Int, all_ints_map_Int. Qed.

Lemma ascii_only_app (a b : string) :
  ascii_only (a +:+ b) = ascii_only a && ascii_only b.
Proof.
  induction a as [|c a IH]; [reflexivity |].
  rewrite append_cons. cbn [ascii_only]. by rewrite IH, andb_assoc.
Qed.

Lemma openers_app (a b : string) :
  openers (a +:+ b) = (openers a + openers b)%nat.
Proof.
  induction a as [|c a IH]; [reflexivity |].
  rewrite append_cons. cbn [openers]. rewrite IH.
  by destruct (Ascii.eqb c "[" || Ascii.eqb c "{").
Qed.

(** A prefix of a text within the limits is within the limits. *)
Lemma within_limits_prefix (kept lost : string) :
  within_limits (kept +:+ lost) = true -> within_limits kept = true.
Proof.
  unfold within_limits. rewrite ascii_only_app, openers_app.
  intros [[Hkept _]%andb_true_iff Hopen%Nat.leb_le]%andb_true_iff.
  rewrite Hkept. apply Nat.leb_le. lia.
Qed.

(** A numeral is ASCII text without a bracket. *)
Lemma uint_flat (d : uint) :
  ascii_only (NilEmpty.string_of_uint d) = true
  /\ openers (NilEmpty.string_of_uint d) = O.
Proof.
  induction d; [done | ..]; destruct IHd as [H1 H2]; cbn; by rewrite ?H1, ?H2.
Qed.

Lemma of_int_flat (z : Z) :
  ascii_only (PyStr.of_int z) = true /\ openers (PyStr.of_int z) = O.
Proof.
  unfold PyStr.of_int. destruct (Z.to_int z) as [d | d];
    cbn [NilEmpty.string_of_int]; [apply uint_flat |].
  destruct (uint_flat d) as [H1 H2]. cbn. by rewrite H1, H2.
Qed.

Lemma join_of_int_flat (ids : list Z) :
  ascii_only (PyStr.join ", " (map PyStr.of_int ids)) = true
  /\ openers (PyStr.join ", " (map PyStr.of_int ids)) = O.
Proof.
  induction ids as [|z [|z' ids] IH]; [done | apply of_int_flat |].
  change (PyStr.join ", " (map PyStr.of_int (z :: z' :: ids)))
    with (PyStr.of_int z +:+ ", "
            +:+ PyStr.join ", " (map PyStr.of_int (z' :: ids))).
  destruct IH as [H1 H2]. destruct (of_int_flat z) as [H3 H4].
  rewrite !ascii_only_app, !openers_app, H1, H2, H3, H4. done.
Qed.

(** What the script writes is within the limits. *)
Lemma dumps_within_limits (ids : list Z) :
  within_limits (Json.dumps ids) = true.
Proof.
  unfold within_limits, Json.dumps.
  destruct (join_of_int_flat ids) as [H1 H2].
  rewrite !ascii_only_app, !openers_app, H1, H2. done.
Qed.

(** Loading a file that holds the dump of a list gives the set of its
    elements, in whatever order the list enumerates them. *)
Lemma load_dumps (ids : list Z) :
  load_forwarded_messages (Some (Json.dumps ids)) = Return (list_to_set ids).
Proof.
  unfold load_forwarded_messages, json_load.
  by rewrite dumps_within_limits, loads_dumps, py_set_ints.
Qed.

Lemma load_save (forwarded_ids : gset Z) (fs : file) :
  load_forwarded_messages (save_forwarded_messages forwarded_ids fs)
  = Return forwarded_ids.
Proof.
  unfold save_forwarded_messages.
  by rewrite load_dumps, list_to_set_elements_L.
Qed.

End Store.

(** C3, as amended. Loading never raises and returns a set in these
    three states of the file: when the file is absent the set is empty;
    when its content is a plain text (ASCII, with at most a hundred
    opening brackets and no run of more than 640 digits) that is not
    decodable as JSON the set is empty; when its content is a plain text
    that decodes to an array of integers the set is that of these
    integers. (Content that decodes to another shape of JSON is outside
    this statement, and so is content that is not a plain text: there the
    decoder can raise what the script does not handle.) *)
Theorem load_fails_soft (fs : file) :
  (fs = None -> load_forwarded_messages fs = Return ∅)
  /\ (forall content,
        fs = Some content -> plain content = true ->
        Json.loads content = None ->
        load_forwarded_messages fs = Return ∅)
  /\ (forall content ids,
        fs = Some content -> plain content = true ->
        Json.loads content = Some (Json.Arr (map Json.Int ids)) ->
        load_forwarded_messages fs = Return (list_to_set ids)).
Proof.
  split; [| split].
  - intros ->. reflexivity.
  - intros content -> [Hin _]%andb_true_iff Hbad.
    unfold load_forwarded_messages, json_load. by rewrite Hin, Hbad.
  - intros content ids -> [Hin _]%andb_true_iff Hgood.
    unfold load_forwarded_messages, json_load.
    by rewrite Hin, Hgood, py_set_ints.
Qed.

Lemma load_fails_soft_witness :
  load_forwarded_messages None = Return ∅
  /\ (plain "[1, 2" = true
      /\ Json.loads "[1, 2" = None
      /\ load_forwarded_messages (Some "[1, 2") = Return ∅)
  /\ (plain "[3, 1, 3]" = true
      /\ Json.loads "[3, 1, 3]" = Some (Json.Arr (map Json.Int [3; 1; 3]))
      /\ load_forwarded_messages (Some "[3, 1, 3]")
         = Return (list_to_set [3; 1; 3])).
Proof.
  split; [| split].
  - apply (load_fails_soft None). reflexivity.
  - split; [reflexivity | split; [reflexivity |]].
    apply (load_fails_soft (Some "[1, 2")) with (content := "[1, 2");
      reflexivity.
  - split; [reflexivity | split; [reflexivity |]].
    apply (load_fails_soft (Some "[3, 1, 3]")) with (content := "[3, 1, 3]");
      reflexivity.
Defined.

(** C3, the claim as stated fails: a file that holds the JSON number 5
    decodes, [set] rejects the integer with a [TypeError], the two
    handled exceptions do not cover it, and the caller receives it in
    place of a set. *)
Lemma load_raises_on_json_number :
  Json.loads "5" = Some (Json.Int 5)
  /\ load_forwarded_messages (Some "5") = Raise TypeError
  /\ ~ (exists ids, load_forwarded_messages (Some "5") = Return ids).
Proof.
  split; [reflexivity | split; [reflexivity |]].
  intros [ids H]. discriminate H.
Qed.

(** X4. On a file that is absent or holds a plain text (ASCII, with
    at most a hundred opening brackets and no run of more than 640
    digits), loading raises in one situation only, and then a
    [TypeError]: the content is valid JSON, and the decoded document is
    one that [set] rejects (a bare [null], boolean or number, or an array
    that holds an array or an object). *)
Theorem load_raises_exactly_on_rejected_documents (fs : file) (e : exn) :
  (forall content, fs = Some content -> plain content = true) ->
  load_forwarded_messages fs = Raise e
  <-> e = TypeError
      /\ exists content v,
           fs = Some content
           /\ Json.loads content = Some v
           /\ rejected_by_set v.
Proof.
  intros Hplain. unfold load_forwarded_messages, json_load. split.
  - destruct fs as [content|]; [| discriminate].
    destruct (proj1 (andb_true_iff _ _) (Hplain content eq_refl)) as [Hin _].
    rewrite Hin.
    destruct (Json.loads content) as [v|] eqn:Hloads; [| discriminate].
    intros Hraise.
    assert (Hset : py_set v = Raise e).
    { destruct (py_set v) as [ids | [] |]; done. }
    assert (He : e = TypeError /\ rejected_by_set v).
    { destruct v as [| b | z | lexeme | [|c raw] | items | [|member members]];
        cbn in Hset |- *; try discriminate Hset;
        try (injection Hset as <-; by split).
      destruct (existsb unhashable items);
        [injection Hset as <-; by split |].
      by destruct (all_ints items). }
    destruct He as [-> Hv]. split; [reflexivity |]. by exists content, v.
  - intros (-> & content & v & -> & Hloads & Hv).
    destruct (proj1 (andb_true_iff _ _) (Hplain content eq_refl)) as [Hin _].
    rewrite Hin, Hloads.
    destruct v as [| b | z | lexeme | raw | items | members];
      cbn in Hv |- *; try done.
    by rewrite Hv.
Qed.

Lemma load_raises_exactly_on_rejected_documents_witness :
  plain "[[1]]" = true
  /\ (load_forwarded_messages (Some "[[1]]") = Raise TypeError
      <-> TypeError = TypeError
          /\ exists content v,
               Some "[[1]]" = Some content
               /\ Json.loads content = Some v
               /\ rejected_by_set v).
Proof.
  split; [reflexivity |].
  apply (load_raises_exactly_on_rejected_documents (Some "[[1]]") TypeError).
  intros content [= <-]. reflexivity.
Defined.

(** C4. For every set of integers, the empty one included, and
    whatever the file held before: saving the set and then loading the
    file returns exactly that set; and so does loading the dump of any
    list that enumerates the set, in whatever order and with whatever
    repetitions. *)
Theorem load_after_save (forwarded_ids : gset Z) (fs : file) :
  load_forwarded_messages (save_forwarded_messages forwarded_ids fs)
  = Return forwarded_ids
  /\ forall listed : list Z,
       list_to_set listed = forwarded_ids ->
       load_forwarded_messages (Some (Json.dumps listed))
       = Return forwarded_ids.
Proof.
  split; [apply load_save |].
  intros listed <-. apply load_dumps.
Qed.

Lemma load_after_save_witness :
  load_forwarded_messages (Some (Json.dumps [3; 1; 3; 2])) = Return {[1; 2; 3]}.
Proof.
  apply (proj2 (load_after_save {[1; 2; 3]} None) [3; 1; 3; 2]).
  by vm_compute.
Defined.

(** C5. For every store (the set in memory and the file) and every
    identifier: a second [add] of the same identifier changes neither the
    set in memory nor the file left by the first; that set is the old one
    with the identifier inserted, the file lists it without a duplicate,
    and loading the file gives back the same set. *)
Theorem add_forwarded_message_idempotent
    (forwarded_ids : gset Z) (message_id : Z) (fs : file) :
  let once := add_forwarded_message forwarded_ids message_id fs in
  let twice := add_forwarded_message (fst once) message_id (snd once) in
  twice = once
  /\ fst once = {[message_id]} ∪ forwarded_ids
  /\ (exists listed, snd once = Some (Json.dumps listed)
                     /\ NoDup listed
                     /\ forall z, z ∈ listed <-> z ∈ fst once)
  /\ load_forwarded_messages (snd twice) = Return (fst once).
Proof.
  cbn zeta. unfold add_forwarded_message. cbn [fst snd].
  assert (Hsame : {[message_id]} ∪ ({[message_id]} ∪ forwarded_ids)
                  = {[message_id]} ∪ forwarded_ids :> gset Z)
    by (by rewrite (assoc_L (∪)), (idemp_L (∪))).
  repeat split.
  - by rewrite Hsame.
  - exists (elements ({[message_id]} ∪ forwarded_ids)).
    split; [reflexivity | split; [apply NoDup_elements |]].
    intros z. apply elem_of_elements.
  - by rewrite load_save, Hsame.
Qed.

(** ** Relative age *)

Section RelativeAge.

(** With a count of at least one, "plural when above one" and "singular
    exactly at one" word the same string. *)
Lemma plural_above_one (N : Z) (unit : string) :
  1 <= N ->
  PyStr.of_int N +:+ String " " unit
    +:+ (if N >? 1 then "s" else "") +:+ " ago"
  = unit_count N unit.
Proof.
  intros HN. unfold unit_count. rewrite Z.gtb_ltb.
  destruct (Z.ltb_spec 1 N), (Z.eqb_spec N 1); try lia; reflexivity.
Qed.

Lemma time_ago_of_microseconds (us : Z) :
  0 <= us -> time_ago (Time.of_microseconds us) = relative_age_spec us.
Proof.
  intros Hus. unfold time_ago, relative_age_spec, Time.of_microseconds.
  cbn [Time.days Time.seconds Time.microseconds]. cbv zeta. numerals.
  destruct (Z.leb_spec 86400000000 us) as [Hday | Hday].
  - assert (Hd : 1 <= us / 86400000000)
      by (Z.to_euclidean_division_equations; lia).
    replace (us / 86400000000 >? 0) with true
      by (symmetry; apply Z.gtb_lt; lia).
    exact (plural_above_one _ "day" Hd).
  - replace (us / 86400000000) with 0
      by (Z.to_euclidean_division_equations; lia).
    replace (us mod 86400000000) with us
      by (Z.to_euclidean_division_equations; lia).
    change (0 >? 0) with false. cbv iota.
    replace (us / 1000000 / 3600) with (us / 3600000000)
      by (Z.to_euclidean_division_equations; lia).
    replace (us / 1000000 / 60) with (us / 60000000)
      by (Z.to_euclidean_division_equations; lia).
    rewrite !Z.geb_leb.
    destruct (Z.leb_spec 3600000000 us) as [Hhour | Hhour].
    + replace (3600 <=? us / 1000000) with true
        by (symmetry; apply Z.leb_le;
            Z.to_euclidean_division_equations; lia).
      apply (plural_above_one _ "hour").
      Z.to_euclidean_division_equations; lia.
    + replace (3600 <=? us / 1000000) with false
        by (symmetry; apply Z.leb_gt;
            Z.to_euclidean_division_equations; lia).
      destruct (Z.leb_spec 60000000 us) as [Hmin | Hmin].
      * replace (60 <=? us / 1000000) with true
          by (symmetry; apply Z.leb_le;
              Z.to_euclidean_division_equations; lia).
        apply (plural_above_one _ "minute").
        Z.to_euclidean_division_equations; lia.
      * replace (60 <=? us / 1000000) with false
          by (symmetry; apply Z.leb_gt;
              Z.to_euclidean_division_equations; lia).
        reflexivity.
Qed.

End RelativeAge.

Example one_day : relative_age_spec 86400000000 = "1 day ago".
Proof. reflexivity. Qed.

Example three_days : time_ago (Time.diff 300000000000 0) = "3 days ago".
Proof. reflexivity. Qed.

Example one_hour : time_ago (Time.diff 7199999999 0) = "1 hour ago".
Proof. reflexivity. Qed.

Example fifty_nine_seconds : time_ago (Time.diff 59999999 0) = "just now".
Proof. reflexivity. Qed.

Example one_minute : time_ago (Time.diff 60000000 0) = "1 minute ago".
Proof. reflexivity. Qed.

(** C9. For every matched message that is not dated after the clock
    reading, the relative age in the header is worded by the largest
    unit that the difference reaches: N days when it is at least a day,
    otherwise N hours when at least an hour, otherwise N minutes when at
    least a minute, otherwise "just now"; N is the whole number of such
    units in the difference, and the unit is singular exactly when N is
    1. *)
Theorem time_ago_by_thresholds (now date : Z) :
  date <= now ->
  time_ago (Time.diff now date) = relative_age_spec (now - date).
Proof.
  intros Hle. unfold Time.diff. apply time_ago_of_microseconds. lia.
Qed.

Lemma time_ago_by_thresholds_witness :
  0 <= 7200000000
  /\ time_ago (Time.diff 7200000000 0) = relative_age_spec (7200000000 - 0)
  /\ relative_age_spec (7200000000 - 0) = "2 hours ago".
Proof.
  split; [lia | split; [| reflexivity]].
  apply (time_ago_by_thresholds 7200000000 0). lia.
Defined.

(** ** Chat Poller *)

Section Poller.

Variable cfg : config.
Variable w : world.
Variable cutoff_time : Z.

(** Sending and forwarding touch neither the lists nor the counter. *)
Lemma forward_keeps_counts (message : Message.t) (found : list string)
    (st : cycle) :
  messages (forward cfg w message found st) = messages st
  /\ matching_messages (forward cfg w message found st) = matching_messages st
  /\ skipped_messages (forward cfg w message found st) = skipped_messages st.
Proof.
  unfold forward, read_clock, client_call, track, add_forwarded_message.
  cbn [calls clock messages matching_messages skipped_messages
       forwarded_message_ids disk].
  destruct (negb (raises w (length (calls st)))); [| by cbn].
  destruct (negb (raises w (length (calls st ++ _)))); by cbn.
Qed.

(** The header send raises: the [except] branch is taken at once. *)
Lemma forward_send_raises (message : Message.t) (found : list string)
    (st : cycle) :
  raises w (length (calls st)) = true ->
  forwarded_message_ids (forward cfg w message found st)
  = forwarded_message_ids st
  /\ disk (forward cfg w message found st) = disk st
  /\ exists header,
       calls (forward cfg w message found st)
       = calls st ++ [(SendMessage (FORWARD_TO_USERNAME cfg) header, false)].
Proof.
  intros Hraise. unfold forward, read_clock, client_call.
  cbn [calls clock messages matching_messages skipped_messages
       forwarded_message_ids disk].
  rewrite Hraise. cbn. eauto.
Qed.

(** The header is sent, the forward call raises. *)
Lemma forward_forward_raises (message : Message.t) (found : list string)
    (st : cycle) :
  raises w (length (calls st)) = false ->
  raises w (S (length (calls st))) = true ->
  forwarded_message_ids (forward cfg w message found st)
  = forwarded_message_ids st
  /\ disk (forward cfg w message found st) = disk st
  /\ exists header,
       calls (forward cfg w message found st)
       = calls st
           ++ [(SendMessage (FORWARD_TO_USERNAME cfg) header, true);
               (ForwardMessages (FORWARD_TO_USERNAME cfg) message, false)].
Proof.
  intros Hsent Hraise. unfold forward, read_clock, client_call.
  cbn [calls clock messages matching_messages skipped_messages
       forwarded_message_ids disk].
  rewrite Hsent. cbn [negb]. cbv iota.
  cbn [calls clock messages matching_messages skipped_messages
       forwarded_message_ids disk].
  rewrite length_app. cbn [length]. rewrite Nat.add_1_r, Hraise.
  cbn. rewrite <- app_assoc. eauto.
Qed.


(** The in-memory store only grows. *)
Lemma forward_store_grows (message : Message.t) (found : list string)
    (st : cycle) :
  forwarded_message_ids st
  ⊆ forwarded_message_ids (forward cfg w message found st).
Proof.
  unfold forward, read_clock, client_call, track, add_forwarded_message.
  cbn [calls clock messages matching_messages skipped_messages
       forwarded_message_ids disk].
  destruct (negb (raises w (length (calls st)))); [| by cbn].
  destruct (negb (raises w (length (calls st ++ _)))); cbn; [| done].
  apply union_subseteq_r.
Qed.

Lemma process_message_store_grows (message : Message.t) (st : cycle) :
  forwarded_message_ids st
  ⊆ forwarded_message_ids (process_message cfg w message st).
Proof.
  unfold process_message.
  destruct (Message.text message) as [text|]; [| done].
  destruct (PyStr.truthy text); [| done].
  destruct (matching_keywords (KEYWORDS cfg) text) as [|k found]; [done |].
  destruct (decide (Message.id message ∈ forwarded_message_ids st)); [done |].
  etrans; [| apply forward_store_grows]. done.
Qed.

Lemma iter_messages_store_grows (chat : list Message.t) (st : cycle) :
  forwarded_message_ids st
  ⊆ forwarded_message_ids (iter_messages cfg w cutoff_time chat st).
Proof.
  revert st; induction chat as [|message later IH]; intros st; simpl; [done |].
  destruct (Message.date message <? cutoff_time); [done |].
  etrans; [apply (process_message_store_grows message) | apply IH].
Qed.

(** The loop over messages that are all in range runs the body on each of
    them. *)
Lemma iter_messages_in_range (earlier later : list Message.t) (st : cycle) :
  Forall (in_range cutoff_time) earlier ->
  iter_messages cfg w cutoff_time (earlier ++ later) st
  = iter_messages cfg w cutoff_time later
      (iter_messages cfg w cutoff_time earlier st).
Proof.
  intros Hrange; revert st.
  induction Hrange as [|message earlier Hm _ IH]; intros st; [done |].
  cbn [app iter_messages]. unfold in_range in Hm.
  destruct (Z.ltb_spec (Message.date message) cutoff_time); [lia | apply IH].
Qed.

Lemma iter_messages_fold (chat : list Message.t) (st : cycle) :
  Forall (in_range cutoff_time) chat ->
  iter_messages cfg w cutoff_time chat st
  = fold_left (fun st message => process_message cfg w message st) chat st.
Proof.
  intros Hrange; revert st.
  induction Hrange as [|message chat Hm _ IH]; intros st; [done |].
  cbn [fold_left iter_messages]. unfold in_range in Hm.
  destruct (Z.ltb_spec (Message.date message) cutoff_time); [lia | apply IH].
Qed.

(** Past the first message older than the cutoff nothing is looked at. *)
Lemma iter_messages_stops (earlier later : list Message.t)
    (message : Message.t) (st : cycle) :
  Message.date message < cutoff_time ->
  iter_messages cfg w cutoff_time (earlier ++ message :: later) st
  = iter_messages cfg w cutoff_time earlier st.
Proof.
  intros Hold; revert st.
  induction earlier as [|m earlier IH]; intros st; cbn [app iter_messages].
  - by destruct (Z.ltb_spec (Message.date message) cutoff_time); [| lia].
  - destruct (Message.date m <? cutoff_time); [done | apply IH].
Qed.

End Poller.

Section LoopBody.

Variable cfg : config.
Variable w : world.

Lemma truthy_nonempty (text : string) :
  text <> EmptyString -> PyStr.truthy text = true.
Proof. by destruct text. Qed.

(** The body on a matching text message whose identifier is in the
    store: the record is listed, the skip is counted, nothing else. *)
Lemma process_message_duplicate (message : Message.t) (text : string)
    (st : cycle) :
  Message.text message = Some text ->
  text <> EmptyString ->
  matching_keywords (KEYWORDS cfg) text <> [] ->
  Message.id message ∈ forwarded_message_ids st ->
  process_message cfg w message st
  = count_skipped (messages_append (record_of message text) st).
Proof.
  intros Htext Hne Hmatch Hdup. unfold process_message.
  rewrite Htext, (truthy_nonempty _ Hne).
  destruct (matching_keywords (KEYWORDS cfg) text) as [|k found]; [done |].
  by destruct (decide (Message.id message ∈ forwarded_message_ids st)).
Qed.

(** The body on a matching text message whose identifier is new. *)
Lemma process_message_new (message : Message.t) (text : string)
    (st : cycle) :
  Message.text message = Some text ->
  text <> EmptyString ->
  matching_keywords (KEYWORDS cfg) text <> [] ->
  Message.id message ∉ forwarded_message_ids st ->
  exists message_data,
    process_message cfg w message st
    = forward cfg w message (matching_keywords (KEYWORDS cfg) text)
        (matching_messages_append message_data
           (messages_append message_data st)).
Proof.
  intros Htext Hne Hmatch Hnew. unfold process_message.
  rewrite Htext, (truthy_nonempty _ Hne).
  destruct (matching_keywords (KEYWORDS cfg) text) as [|k found]; [done |].
  destruct (decide (Message.id message ∈ forwarded_message_ids st)); [done |].
  eauto.
Qed.

(** The body on a message without text. *)
Lemma process_message_textless (message : Message.t) (st : cycle) :
  Message.text message = None \/ Message.text message = Some EmptyString ->
  process_message cfg w message st = st.
Proof. unfold process_message. by intros [-> | ->]. Qed.

End LoopBody.

(** C1. In every sweep, for every text message in range with a
    non-empty keyword match: when its identifier is in the store the
    sweep started with, or was added to it while the earlier messages of
    the same sweep were processed, the body makes no call on the client
    (no header, no forward), leaves the store and the list of new matches
    as they are, counts one more skipped message, and the sweep goes on
    with the later messages. *)
Theorem duplicate_is_skipped (cfg : config) (w : world) (cutoff_time : Z)
    (earlier later : list Message.t) (message : Message.t) (text : string)
    (st : cycle) :
  Forall (in_range cutoff_time) earlier ->
  in_range cutoff_time message ->
  Message.text message = Some text ->
  text <> EmptyString ->
  matching_keywords (KEYWORDS cfg) text <> [] ->
  (Message.id message ∈ forwarded_message_ids st)
  \/ (Message.id message
      ∈ forwarded_message_ids (iter_messages cfg w cutoff_time earlier st)) ->
  let before := iter_messages cfg w cutoff_time earlier st in
  let after := process_message cfg w message before in
  calls after = calls before
  /\ skipped_messages after = S (skipped_messages before)
  /\ matching_messages after = matching_messages before
  /\ forwarded_message_ids after = forwarded_message_ids before
  /\ disk after = disk before
  /\ iter_messages cfg w cutoff_time (earlier ++ message :: later) st
     = iter_messages cfg w cutoff_time later after.
Proof.
  intros Hearlier Hm Htext Hne Hmatch Hstored before after.
  assert (Hdup : Message.id message ∈ forwarded_message_ids before).
  { destruct Hstored as [H0 | H1]; [| exact H1].
    by apply (iter_messages_store_grows cfg w cutoff_time earlier st). }
  assert (Hafter : after
    = count_skipped (messages_append (record_of message text) before))
    by (by apply process_message_duplicate).
  rewrite Hafter. repeat split.
  rewrite (iter_messages_in_range _ _ _ _ _ _ Hearlier).
  cbn [iter_messages]. unfold in_range in Hm.
  destruct (Z.ltb_spec (Message.date message) cutoff_time); [lia |].
  fold before. fold after. by rewrite Hafter.
Qed.

(** C6. With the cutoff at [now - hours_back] hours: a message dated
    exactly at the cutoff is within range, the loop runs its body on it
    and goes on; and at the first message dated strictly before the
    cutoff the loop stops: every message before it was processed, in
    order, and neither it nor any message after it is looked at. *)
Theorem cutoff_boundary (cfg : config) (w : world) (now hours_back : Z) :
  let cutoff_time := cutoff now hours_back in
  (forall (message : Message.t) (later : list Message.t) (st : cycle),
      Message.date message = now - Time.hours hours_back ->
      in_range cutoff_time message
      /\ iter_messages cfg w cutoff_time (message :: later) st
         = iter_messages cfg w cutoff_time later
             (process_message cfg w message st))
  /\ (forall (earlier later : list Message.t) (message : Message.t)
             (st : cycle),
        Forall (in_range cutoff_time) earlier ->
        Message.date message < cutoff_time ->
        iter_messages cfg w cutoff_time (earlier ++ message :: later) st
        = fold_left (fun st m => process_message cfg w m st) earlier st).
Proof.
  intros cutoff_time. split.
  - intros message later st Hdate. unfold in_range.
    subst cutoff_time. unfold cutoff. split; [lia |].
    cbn [iter_messages].
    by destruct (Z.ltb_spec (Message.date message)
                   (now - Time.hours hours_back)); [lia |].
  - intros earlier later message st Hearlier Hold.
    rewrite iter_messages_stops by exact Hold.
    by apply iter_messages_fold.
Qed.

(** C7. When the keyword list contains the empty string, the matcher
    finds a keyword in every text; so every message with a text is
    treated as a match by the loop body: it is either a new match or a
    skipped duplicate. *)
Theorem empty_keyword_matches_every_text (cfg : config) (w : world)
    (T : string) :
  In EmptyString (KEYWORDS cfg) ->
  matching_keywords (KEYWORDS cfg) T <> []
  /\ forall (message : Message.t) (st : cycle),
       Message.text message = Some T ->
       T <> EmptyString ->
       let st' := process_message cfg w message st in
       (length (matching_messages st') + skipped_messages st'
        = S (length (matching_messages st) + skipped_messages st))%nat.
Proof.
  intros Hempty.
  pose proof (empty_keyword_found T _ Hempty) as Hmatch.
  split; [exact Hmatch |].
  intros message st Htext Hne st'. subst st'.
  destruct (decide (Message.id message ∈ forwarded_message_ids st))
    as [Hdup | Hnew].
  - rewrite (process_message_duplicate cfg w _ _ _ Htext Hne Hmatch Hdup).
    cbn. lia.
  - destruct (process_message_new cfg w _ _ _ Htext Hne Hmatch Hnew)
      as [message_data ->].
    destruct (forward_keeps_counts cfg w message
                (matching_keywords (KEYWORDS cfg) T)
                (matching_messages_append message_data
                   (messages_append message_data st)))
      as (_ & -> & ->).
    cbn. rewrite length_app. cbn. lia.
Qed.

(** C8. For every matching message that is not in the store: when the
    header send raises, or the header is sent and the forward call
    raises, the body ends normally for this message, the identifier is
    not added (the set in memory and the file are those from before the
    attempt), and the loop goes on with the next message. *)
Theorem failed_forward_is_not_tracked (cfg : config) (w : world)
    (cutoff_time : Z) (message : Message.t) (text : string)
    (later : list Message.t) (st : cycle) :
  in_range cutoff_time message ->
  Message.text message = Some text ->
  text <> EmptyString ->
  matching_keywords (KEYWORDS cfg) text <> [] ->
  Message.id message ∉ forwarded_message_ids st ->
  raises w (length (calls st)) = true
  \/ (raises w (length (calls st)) = false
      /\ raises w (S (length (calls st))) = true) ->
  let st' := process_message cfg w message st in
  forwarded_message_ids st' = forwarded_message_ids st
  /\ disk st' = disk st
  /\ (Message.id message ∉ forwarded_message_ids st')
  /\ iter_messages cfg w cutoff_time (message :: later) st
     = iter_messages cfg w cutoff_time later st'.
Proof.
  intros Hm Htext Hne Hmatch Hnew Hfail st'.
  assert (Hloop :
    iter_messages cfg w cutoff_time (message :: later) st
    = iter_messages cfg w cutoff_time later st').
  { cbn [iter_messages]. unfold in_range in Hm.
    by destruct (Z.ltb_spec (Message.date message) cutoff_time); [lia |]. }
  destruct (process_message_new cfg w _ _ _ Htext Hne Hmatch Hnew)
    as [message_data Hbody].
  assert (Hstore : forwarded_message_ids st' = forwarded_message_ids st
                   /\ disk st' = disk st).
  { subst st'. rewrite Hbody. destruct Hfail as [Hsend | [Hsent Hforward]].
    - destruct (forward_send_raises cfg w message
                  (matching_keywords (KEYWORDS cfg) text)
                  (matching_messages_append message_data
                     (messages_append message_data st)) Hsend)
        as (Hids & Hdisk & _).
      by rewrite Hids, Hdisk.
    - destruct (forward_forward_raises cfg w message
                  (matching_keywords (KEYWORDS cfg) text)
                  (matching_messages_append message_data
                     (messages_append message_data st)) Hsent Hforward)
        as (Hids & Hdisk & _).
      by rewrite Hids, Hdisk. }
  destruct Hstore as [Hids Hdisk].
  repeat split; [exact Hids | exact Hdisk | by rewrite Hids | exact Hloop].
Qed.

(** C10. A message in range whose text is absent or empty is ignored
    by the loop: the state after its turn is the state before it (nothing
    added to the list of messages seen, no keyword looked up, no call on
    the client), and the loop goes on; and this holds also when the
    keyword list contains the empty keyword, which the matcher would find
    in the empty text. *)
Theorem textless_message_is_ignored (cfg : config) (w : world)
    (cutoff_time : Z) (message : Message.t) (later : list Message.t)
    (st : cycle) :
  in_range cutoff_time message ->
  Message.text message = None \/ Message.text message = Some EmptyString ->
  process_message cfg w message st = st
  /\ iter_messages cfg w cutoff_time (message :: later) st
     = iter_messages cfg w cutoff_time later st
  /\ (In EmptyString (KEYWORDS cfg) ->
      matching_keywords (KEYWORDS cfg) EmptyString <> []).
Proof.
  intros Hm Htext.
  pose proof (process_message_textless cfg w message st Htext) as Hbody.
  split; [exact Hbody | split].
  - cbn [iter_messages]. unfold in_range in Hm.
    destruct (Z.ltb_spec (Message.date message) cutoff_time); [lia |].
    by rewrite Hbody.
  - apply empty_keyword_found.
Qed.

(** ** The theorems on the scenarios *)

Lemma duplicate_is_skipped_witness :
  let st := start {[7]} (Some "[7]") in
  let after := process_message sample_config calm laptop_ad st in
  calls after = calls st
  /\ skipped_messages after = S (skipped_messages st)
  /\ matching_messages after = matching_messages st
  /\ iter_messages sample_config calm (cutoff noon 1) [laptop_ad; bike_ad] st
     = iter_messages sample_config calm (cutoff noon 1) [bike_ad] after.
Proof.
  cbv zeta.
  destruct (duplicate_is_skipped sample_config calm (cutoff noon 1)
              [] [bike_ad] laptop_ad
              "Selling a used Laptop, great condition"
              (start {[7]} (Some "[7]")))
    as (Hcalls & Hskipped & Hmatching & _ & _ & Hloop).
  - constructor.
  - by vm_compute.
  - reflexivity.
  - discriminate.
  - by vm_compute.
  - left. apply (bool_decide_unpack _). by vm_compute.
  - split; [exact Hcalls | split; [exact Hskipped | split]];
      [exact Hmatching | exact Hloop].
Defined.

Lemma cutoff_boundary_witness :
  in_range (cutoff noon 1) bike_ad
  /\ iter_messages sample_config calm (cutoff noon 1) [bike_ad; old_ad]
       (start ∅ None)
     = iter_messages sample_config calm (cutoff noon 1) [old_ad]
         (process_message sample_config calm bike_ad (start ∅ None))
  /\ iter_messages sample_config calm (cutoff noon 1)
       ([laptop_ad; photo; bike_ad] ++ old_ad :: [laptop_ad]) (start ∅ None)
     = fold_left (fun st m => process_message sample_config calm m st)
         [laptop_ad; photo; bike_ad] (start ∅ None).
Proof.
  destruct (cutoff_boundary sample_config calm noon 1) as [Hat Hstop].
  destruct (Hat bike_ad [old_ad] (start ∅ None)) as [Hin Hloop];
    [reflexivity |].
  split; [exact Hin | split; [exact Hloop |]].
  apply Hstop.
  - repeat constructor; by vm_compute.
  - by vm_compute.
Defined.

Lemma empty_keyword_matches_every_text_witness :
  In EmptyString (KEYWORDS trailing_comma_config)
  /\ matching_keywords (KEYWORDS trailing_comma_config)
       "Selling a used Laptop, great condition" <> [].
Proof.
  assert (Hin : In EmptyString (KEYWORDS trailing_comma_config))
    by (right; left; reflexivity).
  split; [exact Hin |].
  exact (proj1 (empty_keyword_matches_every_text trailing_comma_config calm
                  "Selling a used Laptop, great condition" Hin)).
Defined.

Lemma failed_forward_is_not_tracked_witness :
  let st := start ∅ None in
  let st' := process_message sample_config flaky laptop_ad st in
  forwarded_message_ids st' = forwarded_message_ids st
  /\ disk st' = disk st
  /\ iter_messages sample_config flaky (cutoff noon 1) [laptop_ad; bike_ad] st
     = iter_messages sample_config flaky (cutoff noon 1) [bike_ad] st'.
Proof.
  cbv zeta.
  destruct (failed_forward_is_not_tracked sample_config flaky (cutoff noon 1)
              laptop_ad "Selling a used Laptop, great condition"
              [bike_ad] (start ∅ None))
    as (Hids & Hdisk & _ & Hloop).
  - by vm_compute.
  - reflexivity.
  - discriminate.
  - by vm_compute.
  - apply (bool_decide_unpack _). by vm_compute.
  - right. split; reflexivity.
  - split; [exact Hids | split; [exact Hdisk | exact Hloop]].
Defined.

Lemma textless_message_is_ignored_witness :
  process_message trailing_comma_config calm photo (start ∅ None)
  = start ∅ None
  /\ iter_messages trailing_comma_config calm (cutoff noon 1)
       [photo; bike_ad] (start ∅ None)
     = iter_messages trailing_comma_config calm (cutoff noon 1)
         [bike_ad] (start ∅ None).
Proof.
  destruct (textless_message_is_ignored trailing_comma_config calm
              (cutoff noon 1) photo [bike_ad] (start ∅ None))
    as (Hbody & Hloop & _).
  - by vm_compute.
  - left. reflexivity.
  - split; assumption.
Defined.

(** ** Whole cycles *)

Section Cycle.

Variable cfg : config.
Variable w : world.
Variable cutoff_time : Z.

(** What [forward] adds to the log: the header, and possibly the forward
    of this very message. *)
Lemma forward_log (message : Message.t) (found : list string) (st : cycle) :
  exists added,
    calls (forward cfg w message found st) = calls st ++ added
    /\ forall c ok message_id,
         In (c, ok) added -> forwards message_id c ->
         message_id = Message.id message.
Proof.
  unfold forward, read_clock, client_call, track, add_forwarded_message.
  cbn [calls clock messages matching_messages skipped_messages
       forwarded_message_ids disk].
  destruct (negb (raises w (length (calls st)))).
  - destruct (negb (raises w (length (calls st ++ _)))); cbn;
      rewrite <- app_assoc; eexists; (split; [reflexivity |]);
      intros c ok message_id [[= <- _] | [[= <- _] | []]] Hf;
      cbn in Hf; by destruct Hf.
  - cbn. eexists; split; [reflexivity |].
    intros c ok message_id [[= <- _] | []] Hf. by destruct Hf.
Qed.

(** What the loop body adds to the log: forwards only of the message at
    hand, and only when its identifier is not in the store. *)
Lemma process_message_log (message : Message.t) (st : cycle) :
  exists added,
    calls (process_message cfg w message st) = calls st ++ added
    /\ forall c ok message_id,
         In (c, ok) added -> forwards message_id c ->
         message_id ∉ forwarded_message_ids st.
Proof.
  unfold process_message.
  destruct (Message.text message) as [text|];
    [| exists []; by rewrite app_nil_r].
  destruct (PyStr.truthy text); [| exists []; by rewrite app_nil_r].
  destruct (matching_keywords (KEYWORDS cfg) text) as [|k found];
    [exists []; by rewrite app_nil_r |].
  destruct (decide (Message.id message ∈ forwarded_message_ids st))
    as [Hdup | Hnew]; [exists []; by rewrite app_nil_r |].
  match goal with
  | |- context [forward cfg w message ?f ?s] =>
      destruct (forward_log message f s) as (added & Hlog & Hadded)
  end.
  exists added. split; [exact Hlog |].
  intros c ok message_id Hin Hf.
  by rewrite (Hadded c ok message_id Hin Hf).
Qed.

Lemma iter_messages_log (chat : list Message.t) (st : cycle) :
  exists added,
    calls (iter_messages cfg w cutoff_time chat st) = calls st ++ added
    /\ forall c ok message_id,
         In (c, ok) added -> forwards message_id c ->
         message_id ∉ forwarded_message_ids st.
Proof.
  revert st; induction chat as [|message later IH]; intros st;
    cbn [iter_messages]; [exists []; by rewrite app_nil_r |].
  destruct (Message.date message <? cutoff_time);
    [exists []; by rewrite app_nil_r |].
  destruct (process_message_log message st) as (first & Hfirst & Hok1).
  destruct (IH (process_message cfg w message st)) as (rest & Hrest & Hok2).
  exists (first ++ rest). split.
  - by rewrite Hrest, Hfirst, app_assoc.
  - intros c ok message_id Hin Hf. apply in_app_or in Hin as [Hin | Hin].
    + by apply (Hok1 c ok).
    + intros Hstored. apply (Hok2 c ok message_id Hin Hf).
      by apply (process_message_store_grows cfg w message st).
Qed.

(** Tracking an identifier keeps the file in step with the set. *)
Lemma track_mirrored (message_id : Z) (st : cycle) :
  mirrored (track message_id st).
Proof.
  unfold mirrored, track, add_forwarded_message.
  cbn [disk forwarded_message_ids]. apply load_save.
Qed.

Lemma forward_mirrored (message : Message.t) (found : list string)
    (st : cycle) :
  mirrored st -> mirrored (forward cfg w message found st).
Proof.
  intros Hst. unfold forward, read_clock, client_call.
  cbn [calls clock messages matching_messages skipped_messages
       forwarded_message_ids disk].
  destruct (negb (raises w (length (calls st)))); [| exact Hst].
  destruct (negb (raises w (length (calls st ++ _)))); [| exact Hst].
  apply track_mirrored.
Qed.

Lemma process_message_mirrored (message : Message.t) (st : cycle) :
  mirrored st -> mirrored (process_message cfg w message st).
Proof.
  intros Hst. unfold process_message.
  destruct (Message.text message) as [text|]; [| exact Hst].
  destruct (PyStr.truthy text); [| exact Hst].
  destruct (matching_keywords (KEYWORDS cfg) text) as [|k found];
    [exact Hst |].
  destruct (decide (Message.id message ∈ forwarded_message_ids st));
    [exact Hst |].
  by apply forward_mirrored.
Qed.

Lemma iter_messages_mirrored (chat : list Message.t) (st : cycle) :
  mirrored st -> mirrored (iter_messages cfg w cutoff_time chat st).
Proof.
  revert st; induction chat as [|message later IH]; intros st Hst;
    cbn [iter_messages]; [exact Hst |].
  destruct (Message.date message <? cutoff_time); [exact Hst |].
  by apply IH, process_message_mirrored.
Qed.

(** The steps before the loop log no forward and touch neither the set
    nor the file. *)
Lemma sweep_log (chat_username : string) (st : cycle) :
  exists added,
    calls (sweep cfg w chat_username cutoff_time st) = calls st ++ added
    /\ forall c ok message_id,
         In (c, ok) added -> forwards message_id c ->
         message_id ∉ forwarded_message_ids st.
Proof.
  assert (Hshort : forall (l : list (call * bool)),
    (forall c ok, In (c, ok) l -> forall message_id, ~ forwards message_id c) ->
    exists added,
      calls st ++ l = calls st ++ added
      /\ forall c ok message_id,
           In (c, ok) added -> forwards message_id c ->
           message_id ∉ forwarded_message_ids st).
  { intros l Hl. exists l. split; [reflexivity |].
    intros c ok message_id Hin Hf. by destruct (Hl c ok Hin message_id). }
  unfold sweep, client_call.
  cbn [calls clock messages matching_messages skipped_messages
       forwarded_message_ids disk].
  destruct (negb (raises w (length (calls st)))); cbn;
    [| apply Hshort; intros c ok [[= <- _] | []] message_id []].
  destruct (negb (raises w (length (calls st ++ _)))); cbn;
    [| rewrite <- app_assoc; apply Hshort;
       intros c ok [[= <- _] | [[= <- _] | []]] message_id []].
  destruct (authorized w);
    [| rewrite <- app_assoc; apply Hshort;
       intros c ok [[= <- _] | [[= <- _] | []]] message_id []].
  destruct (negb (raises w (length ((calls st ++ _) ++ _)))); cbn;
    [| rewrite <- !app_assoc; apply Hshort;
       intros c ok [[= <- _] | [[= <- _] | [[= <- _] | []]]] message_id []].
  destruct (negb (raises w (length (((calls st ++ _) ++ _) ++ _)))); cbn;
    [| rewrite <- !app_assoc; apply Hshort;
       intros c ok
         [[= <- _] | [[= <- _] | [[= <- _] | [[= <- _] | []]]]] message_id []].
  match goal with
  | |- context [iter_messages cfg w cutoff_time (history w) ?s] =>
      destruct (iter_messages_log (history w) s) as (added & Hlog & Hadded)
  end.
  cbn [calls forwarded_message_ids] in Hlog, Hadded.
  rewrite Hlog, <- !app_assoc. eexists; split; [reflexivity |].
  intros c ok message_id Hin Hf. cbn in Hin.
  destruct Hin as [[= <- _] | [[= <- _] | [[= <- _] | [[= <- _] | Hin]]]];
    try (by destruct Hf).
  by apply (Hadded c ok).
Qed.

Lemma sweep_mirrored (chat_username : string) (st : cycle) :
  mirrored st -> mirrored (sweep cfg w chat_username cutoff_time st).
Proof.
  intros Hst. unfold sweep, client_call.
  cbn [calls clock messages matching_messages skipped_messages
       forwarded_message_ids disk].
  destruct (negb (raises w (length (calls st)))); [| exact Hst].
  destruct (negb (raises w (length (calls st ++ _)))); [| exact Hst].
  destruct (authorized w); [| exact Hst].
  destruct (negb (raises w (length ((calls st ++ _) ++ _)))); [| exact Hst].
  destruct (negb (raises w (length (((calls st ++ _) ++ _) ++ _))));
    [| exact Hst].
  by apply iter_messages_mirrored.
Qed.

End Cycle.

(** X1. In a cycle that returns, no call forwards a message whose
    identifier was in the store that the cycle loaded: an identifier in
    the Duplicate Store is never forwarded again. *)
Theorem stored_identifier_is_never_forwarded (cfg : config) (w : world)
    (chat_username : string) (hours_back : Z) (fs : file)
    (ids : gset Z) (st : cycle) :
  load_forwarded_messages fs = Return ids ->
  get_chat_messages_by_time cfg w chat_username hours_back fs = Return st ->
  forall (target : string) (message : Message.t) (ok : bool),
    In (ForwardMessages target message, ok) (calls st) ->
    Message.id message ∉ ids.
Proof.
  intros Hload Hrun target message ok Hin.
  unfold get_chat_messages_by_time in Hrun. rewrite Hload in Hrun.
  destruct (sweep_log cfg w (cutoff (utcnow w 0) hours_back) chat_username
              (start ids fs)) as (added & Hlog & Hadded).
  unfold client_call in Hrun.
  destruct (negb (raises w _)); [| discriminate Hrun].
  injection Hrun as <-. cbn [calls] in Hin. rewrite Hlog in Hin.
  cbn [start calls] in Hin.
  apply in_app_or in Hin as [Hin | [[=] | []]].
  by apply (Hadded (ForwardMessages target message) ok).
Qed.

(** X2. At the end of a cycle that returns, the file mirrors the set
    in memory, and that set contains every identifier loaded at the
    start: each addition was persisted, nothing was removed. *)
Theorem cycle_leaves_store_persisted (cfg : config) (w : world)
    (chat_username : string) (hours_back : Z) (fs : file)
    (ids : gset Z) (st : cycle) :
  load_forwarded_messages fs = Return ids ->
  get_chat_messages_by_time cfg w chat_username hours_back fs = Return st ->
  load_forwarded_messages (disk st) = Return (forwarded_message_ids st)
  /\ ids ⊆ forwarded_message_ids st.
Proof.
  intros Hload Hrun.
  unfold get_chat_messages_by_time in Hrun. rewrite Hload in Hrun.
  unfold client_call in Hrun.
  destruct (negb (raises w _)); [| discriminate Hrun].
  injection Hrun as <-. cbn [disk forwarded_message_ids]. split.
  - by apply sweep_mirrored.
  - unfold sweep, client_call.
    cbn [calls clock messages matching_messages skipped_messages
         forwarded_message_ids disk].
    repeat (match goal with
            | |- context [if ?b then _ else _] => destruct b
            end; try done).
    etrans; [| apply iter_messages_store_grows]. done.
Qed.

Lemma stored_identifier_is_never_forwarded_witness :
  exists st,
    get_chat_messages_by_time sample_config calm "NSbaraholka" 1 (Some "[7]")
    = Return st
    /\ In (ForwardMessages "me" bike_ad, true) (calls st)
    /\ Message.id bike_ad ∉ ({[7]} : gset Z).
Proof.
  destruct (get_chat_messages_by_time sample_config calm "NSbaraholka" 1
              (Some "[7]")) as [st | e |] eqn:Hrun;
    [| by vm_compute in Hrun ..].
  exists st. split; [reflexivity |].
  assert (Hin : In (ForwardMessages "me" bike_ad, true) (calls st)).
  { pose proof Hrun as Hst. vm_compute in Hst. injection Hst as <-.
    do 5 right; left; reflexivity. }
  split; [exact Hin |].
  refine (stored_identifier_is_never_forwarded sample_config calm
            "NSbaraholka" 1 (Some "[7]") {[7]} st _ Hrun
            "me" bike_ad true Hin).
  by vm_compute.
Defined.

Lemma cycle_leaves_store_persisted_witness :
  exists st,
    get_chat_messages_by_time sample_config calm "NSbaraholka" 1 (Some "[7]")
    = Return st
    /\ load_forwarded_messages (disk st) = Return (forwarded_message_ids st)
    /\ ({[7]} : gset Z) ⊆ forwarded_message_ids st.
Proof.
  eexists. split; [vm_compute; reflexivity |].
  refine (cycle_leaves_store_persisted sample_config calm
            "NSbaraholka" 1 (Some "[7]") {[7]} _ _ _).
  - by vm_compute.
  - by vm_compute.
Defined.

(** The scenario of a first run and a second one within the same
    window: with no file at the start, the first cycle forwards the two
    matching messages in range (the one dated exactly at the cutoff
    included, the older one and the photo not) and leaves their
    identifiers in the file; the second cycle, started from that file,
    forwards nothing and counts both as skipped. *)
Example second_run_skips_what_the_first_forwarded :
  exists first second,
    get_chat_messages_by_time sample_config calm "NSbaraholka" 1 None
    = Return first
    /\ forwarded_message_ids first = {[6; 7]}
    /\ load_forwarded_messages (disk first) = Return {[6; 7]}
    /\ calls first
       = [(Connect, true); (IsUserAuthorized, true);
          (GetEntity "NSbaraholka", true); (GetEntity "me", true);
          (SendMessage "me" "🔥 Keyword match: laptop (just now)", true);
          (ForwardMessages "me" laptop_ad, true);
          (SendMessage "me" "🔥 Keyword match: bike (1 hour ago)", true);
          (ForwardMessages "me" bike_ad, true);
          (Disconnect, true)]
    /\ get_chat_messages_by_time sample_config calm "NSbaraholka" 1
         (disk first)
       = Return second
    /\ skipped_messages second = 2%nat
    /\ matching_messages second = []
    /\ length (messages second) = 2%nat
    /\ calls second
       = [(Connect, true); (IsUserAuthorized, true);
          (GetEntity "NSbaraholka", true); (GetEntity "me", true);
          (Disconnect, true)].
Proof.
  eexists. eexists.
  split; [vm_compute; reflexivity |].
  split; [vm_compute; reflexivity |].
  split; [vm_compute; reflexivity |].
  split; [vm_compute; reflexivity |].
  split; [vm_compute; reflexivity |].
  repeat split; vm_compute; reflexivity.
Qed.

(** ** The log of a sweep *)

Section Attempts.

Variable cfg : config.
Variable w : world.
Variable cutoff_time : Z.


(** What [forward] does, by the outcome of its calls. *)
Lemma forward_attempt (message : Message.t) (found : list string)
    (st : cycle) :
  exists a,
    tried a = message
    /\ header a
       = header_of found (utcnow w (clock st)) (Message.date message)
    /\ calls (forward cfg w message found st)
       = calls st ++ attempt_calls (FORWARD_TO_USERNAME cfg) a
    /\ forwarded_message_ids (forward cfg w message found st)
       = (if succeeded a
          then {[Message.id message]} ∪ forwarded_message_ids st
          else forwarded_message_ids st)
    /\ disk (forward cfg w message found st)
       = (if succeeded a
          then save_forwarded_messages
                 ({[Message.id message]} ∪ forwarded_message_ids st) (disk st)
          else disk st)
    /\ clock (forward cfg w message found st) = S (clock st).
Proof.
  unfold forward, read_clock, client_call, track, add_forwarded_message.
  cbn [calls clock messages matching_messages skipped_messages
       forwarded_message_ids disk].
  fold (header_of found (utcnow w (clock st)) (Message.date message)).
  set (h := header_of _ _ _).
  destruct (negb (raises w (length (calls st)))).
  - destruct (negb (raises w (length (calls st ++ _)))); cbn;
      rewrite <- app_assoc.
    + by exists {| tried := message; header := h; outcome := Forwarded |}.
    + by exists {| tried := message; header := h; outcome := ForwardFailed |}.
  - cbn. by exists {| tried := message; header := h; outcome := HeaderFailed |}.
Qed.

(** The loop body either makes no call and leaves the store alone, or
    makes one attempt on a matching message that is not in the store. *)
Lemma process_message_attempt (message : Message.t) (st : cycle) :
  (calls (process_message cfg w message st) = calls st
   /\ forwarded_message_ids (process_message cfg w message st)
      = forwarded_message_ids st
   /\ disk (process_message cfg w message st) = disk st
   /\ matching_messages (process_message cfg w message st)
      = matching_messages st
   /\ clock (process_message cfg w message st) = clock st
   /\ (has_match cfg message = true ->
       Message.id message ∈ forwarded_message_ids st))
  \/ (exists a (text : string),
        tried a = message
        /\ Message.text message = Some text
        /\ has_match cfg message = true
        /\ (Message.id message ∉ forwarded_message_ids st)
        /\ header a
           = header_of (matching_keywords (KEYWORDS cfg) text)
               (utcnow w (clock st)) (Message.date message)
        /\ calls (process_message cfg w message st)
           = calls st ++ attempt_calls (FORWARD_TO_USERNAME cfg) a
        /\ forwarded_message_ids (process_message cfg w message st)
           = (if succeeded a
              then {[Message.id message]} ∪ forwarded_message_ids st
              else forwarded_message_ids st)
        /\ disk (process_message cfg w message st)
           = (if succeeded a
              then save_forwarded_messages
                     ({[Message.id message]} ∪ forwarded_message_ids st)
                     (disk st)
              else disk st)
        /\ length (matching_messages (process_message cfg w message st))
           = S (length (matching_messages st))
        /\ clock (process_message cfg w message st) = S (clock st)).
Proof.
  unfold process_message, has_match.
  destruct (Message.text message) as [text|]; [| left; by repeat split].
  destruct (PyStr.truthy text); [| left; by repeat split].
  cbn [andb].
  destruct (matching_keywords (KEYWORDS cfg) text) as [|k found] eqn:Hfound;
    [left; by repeat split |].
  destruct (decide (Message.id message ∈ forwarded_message_ids st))
    as [Hdup | Hnew]; [left; by repeat split |].
  right.
  match goal with
  | |- context [forward cfg w message ?f ?s] =>
      destruct (forward_attempt message f s)
        as (a & Ha & Hh & Hcalls & Hids & Hdisk & Hclock);
      destruct (forward_keeps_counts cfg w message f s) as (_ & Hmm & _)
  end.
  exists a, text. rewrite Hcalls, Hids, Hdisk, Hclock, Hmm.
  cbn [calls forwarded_message_ids disk clock matching_messages
       matching_messages_append messages_append] in *.
  rewrite length_app. cbn [length].
  repeat split; try done; [by rewrite Hfound | lia].
Qed.

Lemma sound_attempt_weaken (chat chat' : list Message.t)
    (store store' : gset Z) (a : attempt) :
  (forall m, In m chat -> In m chat') -> store' ⊆ store ->
  sound_attempt cfg w cutoff_time chat store a ->
  sound_attempt cfg w cutoff_time chat' store' a.
Proof.
  intros Hchat Hstore (Hin & Hrange & Hmatch & Hnew & Hheader).
  repeat split; [by apply Hchat | done | done | | done].
  intros Hold. apply Hnew. by apply Hstore.
Qed.

Lemma store_step (x : Z) (l : list Z) (store : gset Z) :
  list_to_set l ∪ ({[x]} ∪ store) = list_to_set (x :: l) ∪ store.
Proof.
  cbn [list_to_set].
  by rewrite (assoc_L (∪)), (comm_L (∪) (list_to_set l)).
Qed.

Lemma newly_forwarded_cons (a : attempt) (attempts : list attempt) :
  newly_forwarded (a :: attempts)
  = if succeeded a
    then Message.id (tried a) :: newly_forwarded attempts
    else newly_forwarded attempts.
Proof. unfold newly_forwarded. cbn [List.filter]. by destruct (succeeded a). Qed.

(** The sweep as a list of attempts: the log is theirs, the store grows
    by the identifiers of those that succeeded, each at most once, and
    the file is rewritten only if one did. *)
Lemma iter_messages_attempts (chat : list Message.t) (st : cycle) :
  exists attempts,
    calls (iter_messages cfg w cutoff_time chat st)
    = calls st ++ flat_map (attempt_calls (FORWARD_TO_USERNAME cfg)) attempts
    /\ forwarded_message_ids (iter_messages cfg w cutoff_time chat st)
       = list_to_set (newly_forwarded attempts) ∪ forwarded_message_ids st
    /\ disk (iter_messages cfg w cutoff_time chat st)
       = match newly_forwarded attempts with
         | [] => disk st
         | _ :: _ =>
             save_forwarded_messages
               (forwarded_message_ids (iter_messages cfg w cutoff_time chat st))
               (disk st)
         end
    /\ NoDup (newly_forwarded attempts)
    /\ Forall (sound_attempt cfg w cutoff_time chat (forwarded_message_ids st))
         attempts
    /\ length (matching_messages (iter_messages cfg w cutoff_time chat st))
       = (length (matching_messages st) + length attempts)%nat
    /\ clock (iter_messages cfg w cutoff_time chat st)
       = (clock st + length attempts)%nat.
Proof.
  revert st; induction chat as [|message later IH]; intros st;
    cbn [iter_messages].
  { exists []. cbn. rewrite app_nil_r, union_empty_l_L.
    repeat split; try done; [constructor | lia..]. }
  destruct (Z.ltb_spec (Message.date message) cutoff_time) as [Hold | Hin].
  { exists []. cbn. rewrite app_nil_r, union_empty_l_L.
    repeat split; try done; [constructor | lia..]. }
  destruct (IH (process_message cfg w message st))
    as (rest & Hcalls & Hids & Hdisk & Hnodup & Hsound & Hlen & Hclock).
  destruct (process_message_attempt message st)
    as [(Hc & Hi & Hd & Hm & Hk & _)
       | (a & text & Ha & Htext & Hmatch & Hnew & Hh & Hc & Hi & Hd & Hm & Hk)].
  - exists rest. rewrite Hcalls, Hc, Hids, Hi, Hlen, Hm, Hclock, Hk.
    rewrite Hdisk, Hd, Hids, Hi.
    repeat split; try done.
    eapply Forall_impl; [exact Hsound |]. intros a'.
    apply sound_attempt_weaken; [by right | by rewrite Hi].
  - exists (a :: rest).
    assert (Ha_sound :
      sound_attempt cfg w cutoff_time (message :: later)
        (forwarded_message_ids st) a).
    { rewrite <- Ha in *. repeat split; try done; [by left | eauto]. }
    assert (Hgrows : forwarded_message_ids st
                     ⊆ forwarded_message_ids (process_message cfg w message st)).
    { rewrite Hi. destruct (succeeded a); [apply union_subseteq_r | done]. }
    assert (Hrest_sound :
      Forall (sound_attempt cfg w cutoff_time (message :: later)
                (forwarded_message_ids st)) rest).
    { eapply Forall_impl; [exact Hsound |]. intros a'.
      apply sound_attempt_weaken; [by right | exact Hgrows]. }
    rewrite newly_forwarded_cons. cbn [flat_map length].
    split; [by rewrite Hcalls, Hc, <- app_assoc |].
    destruct (succeeded a) eqn:Hs.
    + split; [rewrite Hids, Hi, Ha; apply store_step |].
      split.
      { rewrite Hdisk. destruct (newly_forwarded rest) eqn:Hr; [| done].
        rewrite Hd, Hids, Hi. cbn [list_to_set].
        by rewrite union_empty_l_L. }
      split.
      { constructor; [| done]. intros Hdup. unfold newly_forwarded in Hdup.
        apply list_elem_of_fmap in Hdup as (a' & Hid & Ha').
        apply list_elem_of_In, filter_In in Ha' as [Ha' _].
        apply list_elem_of_In in Ha'. rewrite Forall_forall in Hsound.
        destruct (Hsound a' Ha') as (_ & _ & _ & Hfresh & _).
        apply Hfresh. rewrite Hi, <- Hid, Ha.
        by apply elem_of_union_l, elem_of_singleton. }
      split; [by constructor |].
      split; [rewrite Hlen, Hm; lia | rewrite Hclock, Hk; lia].
    + split; [by rewrite Hids, Hi |].
      split; [by rewrite Hdisk, Hd, Hids, Hi |].
      split; [done |].
      split; [by constructor |].
      split; [rewrite Hlen, Hm; lia | rewrite Hclock, Hk; lia].
Qed.

End Attempts.

(** ** The log of a cycle *)

Section CycleLog.

Variable cfg : config.
Variable w : world.

Lemma forwarded_in_app (l1 l2 : list (call * bool)) :
  forwarded_in (l1 ++ l2) = forwarded_in l1 ++ forwarded_in l2.
Proof. apply flat_map_app. Qed.

Lemma forwarded_in_attempt (target : string) (a : attempt) :
  forwarded_in (attempt_calls target a)
  = if succeeded a then [Message.id (tried a)] else [].
Proof. unfold attempt_calls, succeeded. by destruct (outcome a). Qed.

Lemma forwarded_in_attempts (target : string) (attempts : list attempt) :
  forwarded_in (flat_map (attempt_calls target) attempts)
  = newly_forwarded attempts.
Proof.
  induction attempts as [|a attempts IH]; [done |].
  cbn [flat_map]. rewrite forwarded_in_app, forwarded_in_attempt, IH.
  rewrite newly_forwarded_cons. by destruct (succeeded a).
Qed.

Lemma forwarded_in_setup (setup : list (call * bool)) :
  Forall (fun entry => setup_call (fst entry) = true) setup ->
  forwarded_in setup = [].
Proof.
  induction 1 as [|[c ok] setup Hc _ IH]; [done |].
  cbn [forwarded_in flat_map]. fold (forwarded_in setup). rewrite IH.
  by destruct c, ok.
Qed.

(** The sweep either reaches the loop after four calls that returned, or
    ends before it with nothing but the log changed. *)
Lemma sweep_cases (chat_username : string) (cutoff_time : Z) (st : cycle) :
  exists setup st4,
    sweep cfg w chat_username cutoff_time st
    = (if ready w st
       then iter_messages cfg w cutoff_time (history w) st4
       else st4)
    /\ calls st4 = calls st ++ setup
    /\ Forall (fun entry => setup_call (fst entry) = true) setup
    /\ same_but_calls st st4
    /\ (length setup <= 4)%nat.
Proof.
  unfold sweep, ready, client_call, same_but_calls.
  cbn [calls clock messages matching_messages skipped_messages
       forwarded_message_ids disk].
  rewrite ?length_app. cbn [length]. rewrite ?Nat.add_1_r.
  destruct (negb (raises w (length (calls st)))); cbn [andb].
  2: { eexists [_], _. split; [reflexivity |]. cbn.
       repeat split; try done; try lia; by repeat constructor. }
  destruct (negb (raises w (S (length (calls st))))); cbn [andb].
  2: { eexists [_; _], _. split; [reflexivity |]. cbn. rewrite <- app_assoc.
       repeat split; try done; try lia; by repeat constructor. }
  destruct (authorized w); cbn [andb].
  2: { eexists [_; _], _. split; [reflexivity |]. cbn. rewrite <- app_assoc.
       repeat split; try done; try lia; by repeat constructor. }
  destruct (negb (raises w (S (S (length (calls st)))))); cbn [andb].
  2: { eexists [_; _; _], _. split; [reflexivity |]. cbn.
       rewrite <- !app_assoc.
       repeat split; try done; try lia; by repeat constructor. }
  destruct (negb (raises w (S (S (S (length (calls st)))))));
    eexists [_; _; _; _], _; (split; [reflexivity |]); cbn;
    rewrite <- !app_assoc;
    (repeat split; try done; try lia; by repeat constructor).
Qed.

End CycleLog.

Section SweepShape.

Variable cfg : config.
Variable w : world.

(** The whole sweep as setup calls followed by attempts. *)
Lemma sweep_attempts (chat_username : string) (cutoff_time : Z) (st : cycle) :
  exists setup attempts,
    calls (sweep cfg w chat_username cutoff_time st)
    = calls st ++ setup
        ++ flat_map (attempt_calls (FORWARD_TO_USERNAME cfg)) attempts
    /\ Forall (fun entry => setup_call (fst entry) = true) setup
    /\ (ready w st = false ->
        attempts = []
        /\ same_but_calls st (sweep cfg w chat_username cutoff_time st))
    /\ forwarded_message_ids (sweep cfg w chat_username cutoff_time st)
       = list_to_set (newly_forwarded attempts) ∪ forwarded_message_ids st
    /\ disk (sweep cfg w chat_username cutoff_time st)
       = match newly_forwarded attempts with
         | [] => disk st
         | _ :: _ =>
             save_forwarded_messages
               (forwarded_message_ids
                  (sweep cfg w chat_username cutoff_time st))
               (disk st)
         end
    /\ NoDup (newly_forwarded attempts)
    /\ Forall (sound_attempt cfg w cutoff_time (history w)
                (forwarded_message_ids st)) attempts
    /\ length (matching_messages (sweep cfg w chat_username cutoff_time st))
       = (length (matching_messages st) + length attempts)%nat.
Proof.
  destruct (sweep_cases cfg w chat_username cutoff_time st)
    as (setup & st4 & -> & Hcalls & Hsetup & Hsame & _).
  pose proof Hsame as (Hids & Hdisk & _ & Hmatching & _ & _).
  destruct (ready w st).
  - destruct (iter_messages_attempts cfg w cutoff_time (history w) st4)
      as (attempts & Hc & Hi & Hd & Hnodup & Hsound & Hlen & _).
    exists setup, attempts.
    split; [by rewrite Hc, Hcalls, <- app_assoc |].
    split; [done |]. split; [done |].
    split; [by rewrite Hi, Hids |].
    split; [by rewrite Hd, Hdisk |].
    split; [done |].
    split; [by rewrite <- Hids |].
    by rewrite Hlen, Hmatching.
  - exists setup, []. cbn [flat_map newly_forwarded List.filter map
                            list_to_set length].
    rewrite Hcalls, Hids, Hdisk, Hmatching, app_nil_r, union_empty_l_L.
    split; [done |]. split; [done |]. split; [done |].
    split; [done |]. split; [done |]. split; [constructor |].
    split; [constructor | lia].
Qed.

(** The loop is the fold of its body over the window. *)
Lemma iter_messages_window (cutoff_time : Z) (chat : list Message.t)
    (st : cycle) :
  iter_messages cfg w cutoff_time chat st
  = fold_left (fun st message => process_message cfg w message st)
      (in_window cutoff_time chat) st.
Proof.
  revert st; induction chat as [|message later IH]; intros st; [done |].
  cbn [iter_messages in_window].
  destruct (Message.date message <? cutoff_time); [done | apply IH].
Qed.

Lemma in_window_in_range (cutoff_time : Z) (chat : list Message.t) :
  Forall (in_range cutoff_time) (in_window cutoff_time chat).
Proof.
  induction chat as [|message later IH]; cbn [in_window]; [constructor |].
  destruct (Z.ltb_spec (Message.date message) cutoff_time);
    constructor; [unfold in_range; lia | done].
Qed.

(** Under newest-first delivery the window holds every message in range:
    stopping is as good as filtering. *)
Lemma in_window_newest_first (cutoff_time : Z) (chat : list Message.t) :
  newest_first chat ->
  in_window cutoff_time chat
  = List.filter (fun m => cutoff_time <=? Message.date m) chat.
Proof.
  induction 1 as [|message later _ IH Hlater]; [done |].
  cbn [in_window List.filter].
  destruct (Z.ltb_spec (Message.date message) cutoff_time) as [Hold | Hin].
  - replace (cutoff_time <=? Message.date message) with false
      by (symmetry; apply Z.leb_gt; lia).
    clear IH. induction Hlater as [|m later' Hm _ IH']; [done |].
    cbn [List.filter].
    replace (cutoff_time <=? Message.date m) with false
      by (symmetry; apply Z.leb_gt; lia).
    exact IH'.
  - replace (cutoff_time <=? Message.date message) with true
      by (symmetry; apply Z.leb_le; lia).
    by rewrite IH.
Qed.

(** The counters after one turn of the body. *)
Lemma process_message_counts (message : Message.t) (st : cycle) :
  length (messages (process_message cfg w message st))
  = (length (messages st) + if has_text message then 1 else 0)%nat
  /\ (length (matching_messages (process_message cfg w message st))
      + skipped_messages (process_message cfg w message st)
      = length (matching_messages st) + skipped_messages st
        + if has_match cfg message then 1 else 0)%nat.
Proof.
  unfold process_message, has_text, has_match.
  destruct (Message.text message) as [text|]; [| cbn; lia].
  destruct (PyStr.truthy text); [| cbn; lia]. cbn [andb].
  destruct (matching_keywords (KEYWORDS cfg) text) as [|k found].
  { cbn. rewrite length_app. cbn. lia. }
  destruct (decide (Message.id message ∈ forwarded_message_ids st)).
  { cbn. rewrite length_app. cbn. lia. }
  match goal with
  | |- context [forward cfg w message ?f ?s] =>
      destruct (forward_keeps_counts cfg w message f s) as (-> & -> & ->)
  end.
  cbn. rewrite !length_app. cbn. lia.
Qed.

Lemma fold_counts (chat : list Message.t) (st : cycle) :
  let st' :=
    fold_left (fun st message => process_message cfg w message st) chat st in
  length (messages st')
  = (length (messages st) + length (List.filter has_text chat))%nat
  /\ (length (matching_messages st') + skipped_messages st'
      = length (matching_messages st) + skipped_messages st
        + length (List.filter (has_match cfg) chat))%nat.
Proof.
  revert st; induction chat as [|message later IH]; intros st;
    cbn [fold_left List.filter]; [cbn; lia |].
  destruct (IH (process_message cfg w message st)) as [H1 H2].
  destruct (process_message_counts message st) as [H3 H4].
  cbv zeta in *. rewrite H1, H2, H3, H4.
  destruct (has_text message), (has_match cfg message); cbn [length]; lia.
Qed.

(** The records after one turn of the body. *)
Lemma process_message_records (message : Message.t) (st : cycle) :
  exists added,
    messages (process_message cfg w message st) = messages st ++ added
    /\ matching_messages (process_message cfg w message st)
       = matching_messages st ++ List.filter has_keywords added
    /\ map bare added = (if has_text message then [seen message] else [])
    /\ Forall (keywords_of_text cfg) added.
Proof.
  unfold process_message, has_text, seen, record_of.
  destruct (Message.text message) as [text|];
    [| exists []; cbn; by rewrite !app_nil_r].
  destruct (PyStr.truthy text); [| exists []; cbn; by rewrite !app_nil_r].
  destruct (matching_keywords (KEYWORDS cfg) text) as [|k found] eqn:Hfound.
  { exists [{| MessageData.id := Message.id message;
               MessageData.date := Message.date message;
               MessageData.text := text;
               MessageData.sender_name := sender_name (Message.sender message);
               MessageData.matching_keywords := None |}].
    cbn. rewrite app_nil_r. repeat split; try done. by constructor. }
  destruct (decide (Message.id message ∈ forwarded_message_ids st)).
  { exists [{| MessageData.id := Message.id message;
               MessageData.date := Message.date message;
               MessageData.text := text;
               MessageData.sender_name := sender_name (Message.sender message);
               MessageData.matching_keywords := None |}].
    cbn. rewrite app_nil_r. repeat split; try done. by constructor. }
  match goal with
  | |- context [forward cfg w message ?f ?s] =>
      destruct (forward_keeps_counts cfg w message f s) as (-> & -> & _)
  end.
  exists [{| MessageData.id := Message.id message;
             MessageData.date := Message.date message;
             MessageData.text := text;
             MessageData.sender_name := sender_name (Message.sender message);
             MessageData.matching_keywords := Some (k :: found) |}].
  cbn. repeat split; try done.
  constructor; [| done]. unfold keywords_of_text. cbn. by rewrite Hfound.
Qed.

Lemma fold_records (chat : list Message.t) (st : cycle) :
  let st' :=
    fold_left (fun st message => process_message cfg w message st) chat st in
  exists added,
    messages st' = messages st ++ added
    /\ matching_messages st' = matching_messages st
                               ++ List.filter has_keywords added
    /\ map bare added = map seen (List.filter has_text chat)
    /\ Forall (keywords_of_text cfg) added.
Proof.
  revert st; induction chat as [|message later IH]; intros st;
    cbn [fold_left List.filter].
  - exists []. cbn. by rewrite !app_nil_r.
  - destruct (IH (process_message cfg w message st))
      as (rest & Hm & Hmm & Hbare & Hkeys).
    destruct (process_message_records message st)
      as (first & Hm1 & Hmm1 & Hbare1 & Hkeys1).
    exists (first ++ rest). cbv zeta in *.
    rewrite Hm, Hmm, Hm1, Hmm1, List.filter_app, map_app, Hbare, Hbare1.
    rewrite <- !app_assoc. repeat split; try done.
    + by destruct (has_text message).
    + by apply Forall_app.
Qed.




End SweepShape.

Section CycleEnd.

Variable cfg : config.
Variable w : world.

(** A cycle that returns ends with the disconnect; everything else is
    as the sweep left it. *)
Lemma cycle_returns (chat_username : string) (hours_back : Z) (fs : file)
    (ids : gset Z) (st : cycle) :
  load_forwarded_messages fs = Return ids ->
  get_chat_messages_by_time cfg w chat_username hours_back fs = Return st ->
  let swept :=
    sweep cfg w chat_username (cutoff (utcnow w 0) hours_back) (start ids fs) in
  calls st = calls swept ++ [(Disconnect, true)]
  /\ forwarded_message_ids st = forwarded_message_ids swept
  /\ disk st = disk swept
  /\ messages st = messages swept
  /\ matching_messages st = matching_messages swept
  /\ skipped_messages st = skipped_messages swept.
Proof.
  intros Hload Hrun. unfold get_chat_messages_by_time in Hrun.
  rewrite Hload in Hrun. unfold client_call in Hrun.
  destruct (negb (raises w _)); [| discriminate Hrun].
  by injection Hrun as <-.
Qed.

End CycleEnd.

(** X5. The calls of a cycle that returns are, in order: the setup
    calls (connect, login check, the two lookups), then one attempt per
    new match, then the disconnect. An attempt is the header sent to the
    configured target, followed by the forward of that very message
    exactly when the header was sent. Every attempted message is one of
    the history, dated at or after the cutoff, with a text in which a
    keyword occurs and an identifier that was not in the loaded store,
    and its header names the matched keywords. *)
Theorem cycle_log_is_setup_attempts_disconnect (cfg : config) (w : world)
    (chat_username : string) (hours_back : Z) (fs : file)
    (ids : gset Z) (st : cycle) :
  load_forwarded_messages fs = Return ids ->
  get_chat_messages_by_time cfg w chat_username hours_back fs = Return st ->
  exists setup attempts,
    calls st
    = setup ++ flat_map (attempt_calls (FORWARD_TO_USERNAME cfg)) attempts
        ++ [(Disconnect, true)]
    /\ Forall (fun entry => setup_call (fst entry) = true) setup
    /\ Forall (sound_attempt cfg w (cutoff (utcnow w 0) hours_back)
                (history w) ids) attempts
    /\ length (matching_messages st) = length attempts.
Proof.
  intros Hload Hrun.
  destruct (cycle_returns cfg w _ _ _ _ _ Hload Hrun)
    as (Hcalls & _ & _ & _ & Hmatching & _).
  destruct (sweep_attempts cfg w chat_username
              (cutoff (utcnow w 0) hours_back) (start ids fs))
    as (setup & attempts & Hlog & Hsetup & _ & _ & _ & _ & Hsound & Hlen).
  exists setup, attempts. rewrite Hcalls, Hlog, Hmatching, Hlen.
  cbn [start calls matching_messages forwarded_message_ids length] in *.
  by rewrite <- !app_assoc.
Qed.

(** X6. After a cycle that returns, the store is the loaded set plus
    exactly the identifiers of the messages forwarded with success in the
    cycle; none of these was in the loaded set, and none is forwarded with
    success twice. *)
Theorem store_is_loaded_plus_forwarded (cfg : config) (w : world)
    (chat_username : string) (hours_back : Z) (fs : file)
    (ids : gset Z) (st : cycle) :
  load_forwarded_messages fs = Return ids ->
  get_chat_messages_by_time cfg w chat_username hours_back fs = Return st ->
  forwarded_message_ids st = list_to_set (forwarded_in (calls st)) ∪ ids
  /\ NoDup (forwarded_in (calls st))
  /\ Forall (fun z => z ∉ ids) (forwarded_in (calls st)).
Proof.
  intros Hload Hrun.
  destruct (cycle_returns cfg w _ _ _ _ _ Hload Hrun)
    as (Hcalls & Hids & _).
  destruct (sweep_attempts cfg w chat_username
              (cutoff (utcnow w 0) hours_back) (start ids fs))
    as (setup & attempts & Hlog & Hsetup & _ & Hstore & _ & Hnodup
        & Hsound & _).
  assert (Hin : forwarded_in (calls st) = newly_forwarded attempts).
  { rewrite Hcalls, Hlog. cbn [start calls].
    rewrite !forwarded_in_app, forwarded_in_attempts.
    rewrite (forwarded_in_setup _ Hsetup). cbn. by rewrite app_nil_r. }
  rewrite Hin, Hids, Hstore. cbn [start forwarded_message_ids] in *.
  split; [done | split; [done |]].
  unfold newly_forwarded. apply Forall_fmap, Forall_forall.
  intros a Ha. apply list_elem_of_In, filter_In in Ha as [Ha _].
  rewrite Forall_forall in Hsound. apply list_elem_of_In in Ha.
  by destruct (Hsound a Ha) as (_ & _ & _ & Hnew & _).
Qed.

(** X7. A cycle that returns without a forward that succeeded leaves
    the store file exactly as it found it: an absent file stays absent,
    and a file is not rewritten. After a cycle with a forward that
    succeeded the file is the dump of the final store. *)
Theorem file_is_rewritten_only_after_a_forward (cfg : config) (w : world)
    (chat_username : string) (hours_back : Z) (fs : file)
    (ids : gset Z) (st : cycle) :
  load_forwarded_messages fs = Return ids ->
  get_chat_messages_by_time cfg w chat_username hours_back fs = Return st ->
  disk st
  = match forwarded_in (calls st) with
    | [] => fs
    | _ :: _ => Some (Json.dumps (elements (forwarded_message_ids st)))
    end.
Proof.
  intros Hload Hrun.
  destruct (cycle_returns cfg w _ _ _ _ _ Hload Hrun)
    as (Hcalls & Hids & Hdisk & _).
  destruct (sweep_attempts cfg w chat_username
              (cutoff (utcnow w 0) hours_back) (start ids fs))
    as (setup & attempts & Hlog & Hsetup & _ & _ & Hfile & _).
  assert (Hin : forwarded_in (calls st) = newly_forwarded attempts).
  { rewrite Hcalls, Hlog. cbn [start calls].
    rewrite !forwarded_in_app, forwarded_in_attempts.
    rewrite (forwarded_in_setup _ Hsetup). cbn. by rewrite app_nil_r. }
  rewrite Hin, Hdisk, Hfile, Hids. cbn [start disk].
  by destruct (newly_forwarded attempts).
Qed.

(** X8. When connecting raises, the login check raises or says no, or
    the chat or the target cannot be resolved, a cycle that returns has
    examined no message and sent nothing, has left the store and the file
    as they were, and has still disconnected: its log is setup calls
    followed by the disconnect. *)
Theorem cycle_without_setup_changes_nothing (cfg : config) (w : world)
    (chat_username : string) (hours_back : Z) (fs : file)
    (ids : gset Z) (st : cycle) :
  load_forwarded_messages fs = Return ids ->
  get_chat_messages_by_time cfg w chat_username hours_back fs = Return st ->
  ready w (start ids fs) = false ->
  forwarded_message_ids st = ids
  /\ disk st = fs
  /\ messages st = []
  /\ matching_messages st = []
  /\ skipped_messages st = 0%nat
  /\ exists setup,
       calls st = setup ++ [(Disconnect, true)]
       /\ Forall (fun entry => setup_call (fst entry) = true) setup.
Proof.
  intros Hload Hrun Hnot.
  destruct (cycle_returns cfg w _ _ _ _ _ Hload Hrun)
    as (Hcalls & Hids & Hdisk & Hmessages & Hmatching & Hskipped).
  destruct (sweep_attempts cfg w chat_username
              (cutoff (utcnow w 0) hours_back) (start ids fs))
    as (setup & attempts & Hlog & Hsetup & Hearly & _).
  destruct (Hearly Hnot) as (-> & H1 & H2 & H3 & H4 & H5 & _).
  rewrite Hids, Hdisk, Hmessages, Hmatching, Hskipped, H1, H2, H3, H4, H5.
  repeat split; try done.
  exists setup. rewrite Hcalls, Hlog. cbn. by rewrite app_nil_r.
Qed.

(** X9. The records of the loop. The list of messages grows by one
    record per text message of the window (the messages before the first
    one dated before the cutoff), in their order, each with the
    identifier, the date, the text and the sender name of its message. A
    record carries keywords only when they are what the matcher finds in
    its text, one at least. The list of new matches grows by exactly the
    records that carry keywords. The new matches and the skipped
    duplicates together are as many as the messages of the window in
    which a keyword occurs. *)
Theorem loop_records_the_window (cfg : config) (w : world) (cutoff_time : Z)
    (chat : list Message.t) (st : cycle) :
  let st' := iter_messages cfg w cutoff_time chat st in
  let window := in_window cutoff_time chat in
  exists added,
    messages st' = messages st ++ added
    /\ map bare added = map seen (List.filter has_text window)
    /\ Forall (keywords_of_text cfg) added
    /\ matching_messages st'
       = matching_messages st ++ List.filter has_keywords added
    /\ (length (List.filter has_keywords added) + skipped_messages st'
        = skipped_messages st
          + length (List.filter (has_match cfg) window))%nat.
Proof.
  cbv zeta. rewrite iter_messages_window.
  destruct (fold_records cfg w (in_window cutoff_time chat) st)
    as (added & Hm & Hmm & Hbare & Hkeys).
  destruct (fold_counts cfg w (in_window cutoff_time chat) st) as [_ Hcount].
  cbv zeta in *. exists added. repeat split; try done.
  rewrite Hmm, length_app in Hcount. lia.
Qed.

(** X10. When the chat is delivered newest first, stopping at the first
    message dated before the cutoff loses nothing: the loop runs its body
    on exactly the messages dated at or after the cutoff, in order. *)
Theorem stopping_is_filtering_when_newest_first (cfg : config) (w : world)
    (cutoff_time : Z) (chat : list Message.t) (st : cycle) :
  newest_first chat ->
  iter_messages cfg w cutoff_time chat st
  = fold_left (fun st message => process_message cfg w message st)
      (List.filter (fun m => cutoff_time <=? Message.date m) chat) st.
Proof.
  intros Hsorted.
  by rewrite iter_messages_window, in_window_newest_first.
Qed.


Lemma cycle_log_is_setup_attempts_disconnect_witness :
  exists st setup attempts,
    get_chat_messages_by_time sample_config calm "NSbaraholka" 1 (Some "[7]")
    = Return st
    /\ calls st
       = setup
           ++ flat_map (attempt_calls (FORWARD_TO_USERNAME sample_config))
                attempts
           ++ [(Disconnect, true)]
    /\ Forall (fun entry => setup_call (fst entry) = true) setup
    /\ Forall (sound_attempt sample_config calm (cutoff (utcnow calm 0) 1)
                (history calm) {[7]}) attempts
    /\ length (matching_messages st) = length attempts.
Proof.
  destruct (get_chat_messages_by_time sample_config calm "NSbaraholka" 1
              (Some "[7]")) as [st | e |] eqn:Hrun;
    [| by vm_compute in Hrun ..].
  exists st.
  destruct (cycle_log_is_setup_attempts_disconnect sample_config calm
              "NSbaraholka" 1 (Some "[7]") {[7]} st)
    as (setup & attempts & H); [by vm_compute | exact Hrun |].
  by exists setup, attempts.
Defined.

Lemma store_is_loaded_plus_forwarded_witness :
  exists st,
    get_chat_messages_by_time sample_config calm "NSbaraholka" 1 (Some "[7]")
    = Return st
    /\ forwarded_message_ids st
       = list_to_set (forwarded_in (calls st)) ∪ {[7]}
    /\ NoDup (forwarded_in (calls st))
    /\ Forall (fun z => z ∉ ({[7]} : gset Z)) (forwarded_in (calls st)).
Proof.
  destruct (get_chat_messages_by_time sample_config calm "NSbaraholka" 1
              (Some "[7]")) as [st | e |] eqn:Hrun;
    [| by vm_compute in Hrun ..].
  exists st. split; [reflexivity |].
  apply (store_is_loaded_plus_forwarded sample_config calm
           "NSbaraholka" 1 (Some "[7]") {[7]} st); [by vm_compute | exact Hrun].
Defined.

Lemma file_is_rewritten_only_after_a_forward_witness :
  exists st,
    get_chat_messages_by_time sample_config offline "NSbaraholka" 1 None
    = Return st
    /\ disk st
       = match forwarded_in (calls st) with
         | [] => None
         | _ :: _ => Some (Json.dumps (elements (forwarded_message_ids st)))
         end.
Proof.
  destruct (get_chat_messages_by_time sample_config offline "NSbaraholka" 1
              None) as [st | e |] eqn:Hrun;
    [| by vm_compute in Hrun ..].
  exists st. split; [reflexivity |].
  apply (file_is_rewritten_only_after_a_forward sample_config offline
           "NSbaraholka" 1 None ∅ st); [by vm_compute | exact Hrun].
Defined.

Lemma cycle_without_setup_changes_nothing_witness :
  exists st,
    get_chat_messages_by_time sample_config offline "NSbaraholka" 1
      (Some "[7]")
    = Return st
    /\ forwarded_message_ids st = {[7]}
    /\ disk st = Some "[7]"
    /\ messages st = []
    /\ calls st = [(Connect, false); (Disconnect, true)].
Proof.
  destruct (get_chat_messages_by_time sample_config offline "NSbaraholka" 1
              (Some "[7]")) as [st | e |] eqn:Hrun;
    [| by vm_compute in Hrun ..].
  exists st. split; [reflexivity |].
  destruct (cycle_without_setup_changes_nothing sample_config offline
              "NSbaraholka" 1 (Some "[7]") {[7]} st)
    as (Hids & Hdisk & Hmessages & _ & _ & _);
    [by vm_compute | exact Hrun | by vm_compute |].
  split; [exact Hids | split; [exact Hdisk | split; [exact Hmessages |]]].
  vm_compute in Hrun. by injection Hrun as <-.
Defined.

Lemma stopping_is_filtering_when_newest_first_witness :
  newest_first (history calm)
  /\ iter_messages sample_config calm (cutoff noon 1) (history calm)
       (start ∅ None)
     = fold_left (fun st message => process_message sample_config calm message st)
         (List.filter (fun m => cutoff noon 1 <=? Message.date m)
            (history calm))
         (start ∅ None).
Proof.
  assert (Hsorted : newest_first (history calm))
    by (repeat constructor; by vm_compute).
  split; [exact Hsorted |].
  by apply stopping_is_filtering_when_newest_first.
Defined.


(** ** Splitting, stripping and case *)

Section SplitFacts.

Lemma split_nonempty (sep : ascii) (s : string) : PyStr.split sep s <> [].
Proof.
  destruct s as [|c s]; cbn [PyStr.split]; [done |].
  destruct (Ascii.eqb c sep); [done |]. by destruct (PyStr.split sep s).
Qed.

Lemma join_cons (sep p : string) (q : string) (rest : list string) :
  PyStr.join sep (p :: q :: rest) = p +:+ sep +:+ PyStr.join sep (q :: rest).
Proof. reflexivity. Qed.

Lemma join_split (sep : ascii) (s : string) :
  PyStr.join (String sep "") (PyStr.split sep s) = s.
Proof.
  induction s as [|c s IH]; [reflexivity |]. cbn [PyStr.split].
  destruct (Ascii.eqb_spec c sep) as [-> | Hc].
  - pose proof (split_nonempty sep s) as Hne.
    destruct (PyStr.split sep s) as [|p rest]; [done |].
    rewrite join_cons, IH. reflexivity.
  - pose proof (split_nonempty sep s) as Hne.
    destruct (PyStr.split sep s) as [|p rest]; [done |].
    destruct rest as [|q rest].
    + cbn [PyStr.join] in *. by rewrite IH.
    + rewrite join_cons in *. rewrite append_cons. by rewrite IH.
Qed.

Lemma split_pieces (sep : ascii) (s : string) :
  Forall (fun piece => ~ is_substring (String sep "") piece)
    (PyStr.split sep s).
Proof.
  assert (Hcons : forall c piece,
            c <> sep ->
            ~ is_substring (String sep "") piece ->
            ~ is_substring (String sep "") (String c piece)).
  { intros c piece Hc Hpiece (pre & post & H). destruct pre as [|x pre].
    - injection H as H _. done.
    - injection H as _ H. apply Hpiece. by exists pre, post. }
  assert (Hempty : ~ is_substring (String sep "") "").
  { intros (pre & post & H). by destruct pre. }
  induction s as [|c s IH]; cbn [PyStr.split].
  - by constructor.
  - destruct (Ascii.eqb_spec c sep) as [-> | Hc].
    + by constructor.
    + destruct (PyStr.split sep s) as [|p rest].
      * constructor; [| done]. by apply Hcons.
      * inversion IH; subst. constructor; [| done]. by apply Hcons.
Qed.

(** Where the empty piece comes from: the tail of the pieces holds it
    when the text ends with the separator or holds two in a row. *)
Lemma split_tail_empty (sep : ascii) (s : string) :
  In "" (tail (PyStr.split sep s))
  <-> ends_with (String sep "") s
      \/ is_substring (String sep (String sep "")) s.
Proof.
  assert (Hhead : forall s,
            In "" (PyStr.split sep s)
            <-> s = "" \/ PyStr.startswith (String sep "") s = true
                \/ In "" (tail (PyStr.split sep s))).
  { intros [|c t]; cbn [PyStr.split PyStr.startswith tail].
    - cbn. tauto.
    - rewrite andb_true_r. rewrite (Ascii.eqb_sym sep c).
      destruct (Ascii.eqb c sep).
      + cbn. tauto.
      + pose proof (split_nonempty sep t) as Hne.
        destruct (PyStr.split sep t) as [|p rest]; [done |].
        cbn. split; [intros [H | H]; [done | tauto] |].
        intros [H | [H | H]]; try done. by right. }
  induction s as [|c s IH]; cbn [PyStr.split].
  - cbn. split; [done |].
    intros [[r H] | (pre & post & H)]; [by destruct r | by destruct pre].
  - destruct (Ascii.eqb_spec c sep) as [-> | Hc].
    + cbn [tail]. rewrite Hhead, IH. split.
      * intros [-> | [H | [[r ->] | (pre & post & ->)]]].
        -- left. by exists "".
        -- right. apply startswith_spec in H as [r ->]. by exists "", r.
        -- left. by exists (String sep r).
        -- right. by exists (String sep pre), post.
      * intros [[r H] | (pre & post & H)].
        -- destruct r as [|x r].
           ++ injection H as ->. by left.
           ++ injection H as _ ->. right; right; left. by exists r.
        -- destruct pre as [|x pre].
           ++ injection H as ->. right; left.
              apply startswith_spec. by exists post.
           ++ injection H as _ ->. right; right; right. by exists pre, post.
    + pose proof (split_nonempty sep s) as Hne.
      destruct (PyStr.split sep s) as [|p rest]; [done |].
      cbn [tail] in *. rewrite IH. split.
      * intros [[r ->] | (pre & post & ->)].
        -- left. by exists (String c r).
        -- right. by exists (String c pre), post.
      * intros [[r H] | (pre & post & H)].
        -- destruct r as [|x r]; [injection H as H _; done |].
           injection H as _ ->. left. by exists r.
        -- destruct pre as [|x pre]; [injection H as H _; done |].
           injection H as _ ->. right. by exists pre, post.
Qed.

Lemma split_empty_piece (sep : ascii) (s : string) :
  In "" (PyStr.split sep s)
  <-> s = ""
      \/ PyStr.startswith (String sep "") s = true
      \/ ends_with (String sep "") s
      \/ is_substring (String sep (String sep "")) s.
Proof.
  rewrite <- split_tail_empty.
  destruct s as [|c t]; cbn [PyStr.split PyStr.startswith tail].
  - cbn. tauto.
  - rewrite andb_true_r. rewrite (Ascii.eqb_sym sep c).
    destruct (Ascii.eqb c sep).
    + cbn. tauto.
    + pose proof (split_nonempty sep t) as Hne.
      destruct (PyStr.split sep t) as [|p rest]; [done |].
      cbn. split; [intros [H | H]; [done | tauto] |].
      intros [H | [H | H]]; try done. by right.
Qed.

End SplitFacts.

Section CaseFacts.

Lemma lower_char_idempotent (c : ascii) :
  PyStr.lower_char (PyStr.lower_char c) = PyStr.lower_char c.
Proof. destruct c as [[] [] [] [] [] [] [] []]; reflexivity. Qed.

Lemma lower_idempotent (s : string) :
  PyStr.lower (PyStr.lower s) = PyStr.lower s.
Proof.
  induction s as [|c s IH]; [reflexivity |].
  cbn [PyStr.lower]. by rewrite lower_char_idempotent, IH.
Qed.

Lemma filter_map_commute {A B : Type} (f : B -> bool) (g : A -> B)
    (l : list A) :
  List.filter f (map g l) = map g (List.filter (fun a => f (g a)) l).
Proof.
  induction l as [|a l IH]; [reflexivity |]. cbn [map List.filter].
  destruct (f (g a)); cbn [map]; by rewrite IH.
Qed.

Lemma lower_char_ascii (c : ascii) :
  (nat_of_ascii c <? 128)%nat = true ->
  PyStr.lower_char c = ascii_lower_char c.
Proof.
  destruct c as [[] [] [] [] [] [] [] []]; intros H; try discriminate H;
    reflexivity.
Qed.

(** On ASCII text the model's [lower] is the ASCII one. *)
Lemma lower_ascii (s : string) :
  ascii_only s = true -> PyStr.lower s = ascii_lower s.
Proof.
  induction s as [|c s IH]; [reflexivity |]. cbn [ascii_only].
  intros [Hc Hs]%andb_true_iff. cbn [PyStr.lower ascii_lower].
  by rewrite lower_char_ascii, IH.
Qed.

End CaseFacts.

Section StripFacts.

Lemma lstrip_split (s : string) :
  exists pre, s = pre +:+ PyStr.lstrip s /\ blank pre = true.
Proof.
  induction s as [|c s (pre & IH & Hpre)]; [by exists "" |].
  cbn [PyStr.lstrip]. destruct (PyStr.isspace c) eqn:Hc.
  - exists (String c pre). rewrite append_cons, <- IH.
    split; [done |]. cbn [blank]. by rewrite Hc.
  - by exists "".
Qed.

Lemma lstrip_first (s : string) (c : ascii) :
  first_char (PyStr.lstrip s) = Some c -> PyStr.isspace c = false.
Proof.
  induction s as [|x s IH]; [done |]. cbn [PyStr.lstrip].
  destruct (PyStr.isspace x) eqn:Hx; [done |].
  cbn. by intros [= <-].
Qed.

Lemma rstrip_split (s : string) :
  exists post, s = PyStr.rstrip s +:+ post /\ blank post = true.
Proof.
  induction s as [|c s (post & IH & Hpost)]; [by exists "" |].
  cbn [PyStr.rstrip]. destruct (PyStr.rstrip s) as [|x r] eqn:Hr.
  - destruct (PyStr.isspace c) eqn:Hc.
    + exists (String c post). rewrite IH at 1. rewrite !append_nil_l.
      split; [done |]. cbn [blank]. by rewrite Hc.
    + exists post. rewrite IH at 1. by rewrite !append_nil_l, append_cons.
  - exists post. rewrite append_cons, <- IH. done.
Qed.

Lemma rstrip_last (s : string) (c : ascii) :
  last_char (PyStr.rstrip s) = Some c -> PyStr.isspace c = false.
Proof.
  induction s as [|x s IH]; [done |]. cbn [PyStr.rstrip].
  destruct (PyStr.rstrip s) as [|y r] eqn:Hr.
  - destruct (PyStr.isspace x) eqn:Hx; [done |]. cbn. by intros [= <-].
  - exact IH.
Qed.

Lemma rstrip_first (s : string) :
  (forall c, first_char s = Some c -> PyStr.isspace c = false) ->
  first_char (PyStr.rstrip s) = first_char s.
Proof.
  destruct s as [|x s]; [done |]. intros Hx. cbn [PyStr.rstrip].
  destruct (PyStr.rstrip s); [| done].
  by rewrite (Hx x eq_refl).
Qed.

Lemma strip_trimmed (s : string) : trimmed (PyStr.strip s).
Proof.
  unfold trimmed, PyStr.strip. split.
  - intros c. rewrite rstrip_first by apply lstrip_first. apply lstrip_first.
  - apply rstrip_last.
Qed.

Lemma strip_split (s : string) :
  exists pre post,
    s = pre +:+ PyStr.strip s +:+ post
    /\ blank pre = true /\ blank post = true.
Proof.
  destruct (lstrip_split s) as (pre & Hs & Hpre).
  destruct (rstrip_split (PyStr.lstrip s)) as (post & Hl & Hpost).
  exists pre, post. unfold PyStr.strip. by rewrite <- Hl, <- Hs.
Qed.

End StripFacts.

(** X12. The keyword list read from the environment is never empty, its
    keywords joined by commas give back the value of the variable
    character by character (nothing is trimmed and nothing is dropped),
    and no keyword holds a comma. *)
Theorem KEYWORDS_are_the_comma_separated_pieces (value : option string) :
  KEYWORDS_of_env value <> []
  /\ PyStr.join "," (KEYWORDS_of_env value)
     = match value with Some v => v | None => "" end
  /\ Forall (fun keyword => ~ is_substring "," keyword)
       (KEYWORDS_of_env value).
Proof.
  unfold KEYWORDS_of_env. split; [apply split_nonempty |].
  split; [apply join_split | apply split_pieces].
Qed.

(** X13. The empty keyword, which occurs in every text, is in the list
    read from the environment exactly when the variable is unset or
    empty, starts or ends with a comma, or holds two commas in a row. *)
Theorem empty_keyword_comes_from_stray_commas (value : option string) :
  let v := match value with Some v => v | None => "" end in
  In "" (KEYWORDS_of_env value)
  <-> v = ""
      \/ PyStr.startswith "," v = true
      \/ ends_with "," v
      \/ is_substring ",," v.
Proof. cbv zeta. unfold KEYWORDS_of_env. apply split_empty_piece. Qed.

(** X14. On ASCII text and ASCII keywords the matcher sees no case:
    a keyword is matched exactly when it is one of the list and occurs in
    the text once the letters A-Z of both are mapped to a-z; hence
    lower-casing the text changes nothing, and lower-casing the keywords
    gives the same matches, lower-cased. *)
Theorem matcher_ignores_case (K : list string) (T : string) :
  ascii_only T = true ->
  forallb ascii_only K = true ->
  (forall k,
     In k (matching_keywords K T)
     <-> In k K /\ is_substring (ascii_lower k) (ascii_lower T))
  /\ matching_keywords K (ascii_lower T) = matching_keywords K T
  /\ matching_keywords (map ascii_lower K) T
     = map ascii_lower (matching_keywords K T).
Proof.
  intros HT HK.
  assert (Hk : forall k, In k K -> PyStr.lower k = ascii_lower k).
  { intros k Hin. apply lower_ascii.
    by apply (proj1 (forallb_forall ascii_only K) HK). }
  split; [| split].
  - intros k. rewrite matching_keywords_In, (lower_ascii T HT). split.
    + intros [Hin Hsub]. split; [done |]. by rewrite <- (Hk k Hin).
    + intros [Hin Hsub]. split; [done |]. by rewrite (Hk k Hin).
  - rewrite <- (lower_ascii T HT).
    rewrite !matching_keywords_filter. unfold matchedKeywords_spec.
    by rewrite lower_idempotent.
  - rewrite (map_ext_in ascii_lower PyStr.lower K)
      by (intros k Hin; by rewrite (Hk k Hin)).
    rewrite (map_ext_in ascii_lower PyStr.lower (matching_keywords K T)).
    + rewrite !matching_keywords_filter. unfold matchedKeywords_spec.
      rewrite filter_map_commute. f_equal.
      apply filter_ext. intros k. by rewrite lower_idempotent.
    + intros k Hin. apply matching_keywords_In in Hin as [Hin _].
      by rewrite (Hk k Hin).
Qed.

Lemma matcher_ignores_case_witness :
  ascii_only "Selling a used Laptop" = true
  /\ forallb ascii_only ["LAPTOP"; "bike"] = true
  /\ matching_keywords (map ascii_lower ["LAPTOP"; "bike"])
       "Selling a used Laptop"
     = map ascii_lower
         (matching_keywords ["LAPTOP"; "bike"] "Selling a used Laptop")
  /\ matching_keywords ["LAPTOP"; "bike"] "Selling a used Laptop"
     = ["LAPTOP"].
Proof.
  split; [reflexivity | split; [reflexivity | split; [| reflexivity]]].
  apply (matcher_ignores_case ["LAPTOP"; "bike"] "Selling a used Laptop");
    reflexivity.
Defined.

(** X15. The display name of a user is the first name and, when there
    is a non-empty last name, a space and the last name, with the white
    space at both ends removed and nothing else: what is removed is
    white space only, and the name neither starts nor ends with white
    space. *)
Theorem sender_name_of_a_user_is_trimmed (first_name last_name : option string) :
  let full :=
    match first_name with Some n => n | None => "" end
    +:+ match last_name with
        | Some (String c l) => " " +:+ String c l
        | _ => ""
        end in
  let name := sender_name (Some (User first_name last_name)) in
  trimmed name
  /\ exists pre post,
       full = pre +:+ name +:+ post /\ blank pre = true /\ blank post = true.
Proof.
  cbv zeta. cbn [sender_name].
  set (first := match first_name with Some n => n | None => "" end).
  split; [apply strip_trimmed |].
  destruct last_name as [[|c l] |]; cbn [PyStr.truthy app PyStr.join];
    rewrite ?append_nil_r; apply strip_split.
Qed.

(** X16. For a message dated after the clock reading the difference is
    negative, and the age is worded from its part within the day: never
    in days, and as the age of the difference taken modulo one day. A
    message one second ahead of the clock is worded as 23 hours old. *)
Theorem time_ago_of_a_future_date (now date : Z) :
  now < date ->
  time_ago (Time.diff now date)
  = relative_age_spec ((now - date) mod Time.us_per_day)
  /\ (now - date) mod Time.us_per_day < Time.us_per_day.
Proof.
  intros Hlt. split.
  - rewrite <- time_ago_of_microseconds
      by (apply Z.mod_pos_bound; by vm_compute).
    unfold Time.diff, time_ago, Time.of_microseconds.
    cbn [Time.days Time.seconds Time.microseconds].
    rewrite Z.mod_mod by (by vm_compute).
    replace ((now - date) / Time.us_per_day >? 0) with false.
    + replace ((now - date) mod Time.us_per_day / Time.us_per_day >? 0)
        with false; [reflexivity |].
      rewrite Z.gtb_ltb. symmetry. apply Z.ltb_ge. numerals.
      Z.to_euclidean_division_equations; lia.
    + rewrite Z.gtb_ltb. symmetry. apply Z.ltb_ge. numerals.
      Z.to_euclidean_division_equations; lia.
  - apply Z.mod_pos_bound. by vm_compute.
Qed.

Lemma time_ago_of_a_future_date_witness :
  time_ago (Time.diff 0 1000000)
  = relative_age_spec ((0 - 1000000) mod Time.us_per_day)
  /\ relative_age_spec ((0 - 1000000) mod Time.us_per_day) = "23 hours ago".
Proof.
  split; [| reflexivity].
  apply (time_ago_of_a_future_date 0 1000000). lia.
Defined.

(** ** A store file cut short *)

Section Truncation.

Lemma numeral_app (a b : string) :
  numeral (a +:+ b) = numeral a && numeral b.
Proof.
  induction a as [|c a IH]; [reflexivity |].
  rewrite append_cons. cbn [numeral]. by rewrite IH, andb_assoc.
Qed.

Lemma uint_numeral (d : uint) : numeral (NilEmpty.string_of_uint d) = true.
Proof. induction d; cbn; done. Qed.

Lemma of_int_numeral (z : Z) : numeral (PyStr.of_int z) = true.
Proof.
  unfold PyStr.of_int. destruct (Z.to_int z); cbn [NilEmpty.string_of_int].
  - apply uint_numeral.
  - cbn [numeral]. by rewrite uint_numeral.
Qed.

Lemma numeral_char_plain (c : ascii) :
  numeral_char c = true ->
  Json.is_ws c = false
  /\ Ascii.eqb c "]" = false
  /\ Ascii.eqb c "," = false
  /\ Ascii.eqb c "." = false
  /\ (Ascii.eqb c "e" || Ascii.eqb c "E") = false.
Proof.
  destruct c as [[] [] [] [] [] [] [] []]; intros H; try discriminate H;
    by vm_compute.
Qed.

Lemma span_digits_numeral (s : string) :
  numeral s = true -> numeral (snd (Json.span_digits s)) = true.
Proof.
  induction s as [|c s IH]; [done |]. cbn [numeral Json.span_digits].
  intros [Hc Hs]%andb_true_iff. destruct (Json.is_digit c).
  - specialize (IH Hs). by destruct (Json.span_digits s).
  - cbn [snd numeral]. by rewrite Hc, Hs.
Qed.

Lemma match_unsigned_numeral (sign s : string) (v : Json.value) (r : string) :
  numeral s = true ->
  Json.match_unsigned sign s = Some (v, r) -> numeral r = true.
Proof.
  intros Hs. unfold Json.match_unsigned.
  destruct (Json.match_integer s) as [[integer s2] |] eqn:Hint; [| done].
  assert (H2 : numeral s2 = true).
  { unfold Json.match_integer in Hint. destruct s as [|c s']; [done |].
    cbn [numeral] in Hs. apply andb_true_iff in Hs as [_ Hs'].
    destruct (Ascii.eqb c "0"); [by injection Hint as _ <- |].
    destruct (Json.is_digit c); [| done].
    pose proof (span_digits_numeral s' Hs') as Hspan.
    destruct (Json.span_digits s'). by injection Hint as _ <-. }
  assert (Hfrac : Json.match_frac s2 = None).
  { destruct s2 as [|c s3]; [done |]. cbn [numeral] in H2.
    apply andb_true_iff in H2 as [Hc _].
    destruct (numeral_char_plain c Hc) as (_ & _ & _ & Hdot & _).
    unfold Json.match_frac. by rewrite Hdot. }
  assert (Hexp : Json.match_exp s2 = None).
  { destruct s2 as [|c s3]; [done |]. cbn [numeral] in H2.
    apply andb_true_iff in H2 as [Hc _].
    destruct (numeral_char_plain c Hc) as (_ & _ & _ & _ & He).
    unfold Json.match_exp. by rewrite He. }
  rewrite Hfrac, Hexp.
  destruct (NilEmpty.int_of_string _); [| done]. by intros [= _ <-].
Qed.

Lemma match_number_numeral (s : string) (v : Json.value) (r : string) :
  numeral s = true ->
  Json.match_number s = Some (v, r) -> numeral r = true.
Proof.
  destruct s as [|c s']; [done |]. intros Hs. unfold Json.match_number.
  destruct (Ascii.eqb c "-").
  - cbn [numeral] in Hs. apply andb_true_iff in Hs as [_ Hs'].
    by apply match_unsigned_numeral.
  - by apply match_unsigned_numeral.
Qed.

(** On a text of digits and minus signs the scanner is the number
    scanner. *)
Lemma scan_once_numeral (fuel : nat) (s : string) :
  numeral s = true -> Json.scan_once (S fuel) s = Json.match_number s.
Proof.
  destruct s as [|c t]; [done |]. cbn [numeral].
  intros [Hc Ht]%andb_true_iff.
  destruct c as [[] [] [] [] [] [] [] []]; try discriminate Hc;
    try reflexivity.
  destruct t as [|c' t']; [reflexivity |]. cbn [numeral] in Ht.
  apply andb_true_iff in Ht as [Hc' _].
  destruct c' as [[] [] [] [] [] [] [] []]; try discriminate Hc';
    reflexivity.
Qed.

(** The element loop never closes a list on such a text. *)
Lemma JSONArray_numeral (fuel : nat) (s : string) (values : list Json.value) :
  numeral s = true -> Json.JSONArray fuel s values = None.
Proof.
  intros Hs. destruct fuel as [|[|fuel]]; [done | done |].
  rewrite JSONArray_eq, scan_once_numeral by done.
  destruct (Json.match_number s) as [[v r] |] eqn:Hnum; [| done].
  pose proof (match_number_numeral _ _ _ Hs Hnum) as Hr.
  destruct r as [|c r']; [done |]. cbn [numeral] in Hr.
  apply andb_true_iff in Hr as [Hc _].
  destruct (numeral_char_plain c Hc) as (Hws & Hclose & Hcomma & _).
  cbn [Json.skip_ws]. by rewrite Hws, Hclose, Hcomma.
Qed.

(** A prefix of two texts in a row is a prefix of the first, or the
    first and a non-empty prefix of the second. *)
Lemma prefix_of_app (a : string) :
  forall p q b,
    p +:+ q = a +:+ b ->
    (exists r, a = p +:+ r)
    \/ (exists p2, p = a +:+ p2 /\ p2 <> "" /\ p2 +:+ q = b).
Proof.
  induction a as [|x a IH]; intros p q b H.
  - destruct p as [|y p]; [left; by exists "" |].
    right. by exists (String y p).
  - destruct p as [|y p]; [left; by eexists |].
    rewrite !append_cons in H. injection H as -> H.
    destruct (IH _ _ _ H) as [[r ->] | (p2 & -> & Hp2 & Hb)].
    + left. by exists r.
    + right. by exists p2.
Qed.

Lemma number_start_plain (c : ascii) (t : string) :
  number_start (String c t) ->
  Json.is_ws c = false /\ Ascii.eqb c "]" = false.
Proof.
  intros [Hc | [-> _]]; [| done].
  destruct c as [[] [] [] [] [] [] [] []]; try discriminate Hc; done.
Qed.

Lemma join_of_int_start (z : Z) (ids : list Z) :
  number_start (PyStr.join ", " (map PyStr.of_int (z :: ids))).
Proof.
  destruct ids as [|z' ids].
  - cbn [map PyStr.join]. rewrite <- (append_nil_r (PyStr.of_int z)).
    apply of_int_start.
  - change (PyStr.join ", " (map PyStr.of_int (z :: z' :: ids)))
      with (PyStr.of_int z +:+ ", "
              +:+ PyStr.join ", " (map PyStr.of_int (z' :: ids))).
    apply of_int_start.
Qed.

(** The element loop fails on every prefix of the elements of a dumped
    list. *)
Lemma JSONArray_prefix (ids : list Z) :
  forall (z : Z) (p q : string) (fuel : nat) (values : list Json.value),
    p +:+ q = PyStr.join ", " (map PyStr.of_int (z :: ids)) ->
    Json.JSONArray fuel p values = None.
Proof.
  induction ids as [|z' ids IH]; intros z p q fuel values H.
  - cbn [map PyStr.join] in H. apply JSONArray_numeral.
    pose proof (of_int_numeral z) as Hz. rewrite <- H, numeral_app in Hz.
    by apply andb_true_iff in Hz as [Hp _].
  - change (PyStr.join ", " (map PyStr.of_int (z :: z' :: ids)))
      with (PyStr.of_int z +:+ ", "
              +:+ PyStr.join ", " (map PyStr.of_int (z' :: ids))) in H.
    destruct (prefix_of_app _ _ _ _ H) as [[r Hr] | (p2 & -> & Hp2 & Hrest)].
    + apply JSONArray_numeral.
      pose proof (of_int_numeral z) as Hz. rewrite Hr, numeral_app in Hz.
      by apply andb_true_iff in Hz as [Hp _].
    + destruct p2 as [|c p3]; [done |].
      change (", " +:+ ?s) with (String "," (String " " s)) in Hrest.
      rewrite append_cons in Hrest. injection Hrest as -> Hrest.
      destruct fuel as [|[|fuel]]; [done | done |].
      rewrite JSONArray_eq, scan_once_of_int by (by eexists; left).
      cbn [Json.skip_ws]. change (Json.is_ws ",") with false.
      change (Ascii.eqb "," "]") with false.
      change (Ascii.eqb "," ",") with true. cbv iota.
      destruct p3 as [|c' p4]; [by apply JSONArray_numeral |].
      rewrite append_cons in Hrest. injection Hrest as -> Hrest.
      change (Json.skip_ws (String " " p4)) with (Json.skip_ws p4).
      destruct p4 as [|d p5]; [by apply JSONArray_numeral |].
      assert (Hstart : number_start (String d p5 +:+ q))
        by (rewrite Hrest; apply join_of_int_start).
      rewrite append_cons in Hstart.
      destruct (number_start_plain _ _ Hstart) as [Hws _].
      cbn [Json.skip_ws]. rewrite Hws. by apply (IH z' _ q).
Qed.

(** No proper prefix of a dumped list is a JSON document. *)
Lemma loads_truncated (ids : list Z) (kept lost : string) :
  Json.dumps ids = kept +:+ lost -> lost <> "" -> Json.loads kept = None.
Proof.
  unfold Json.dumps. change ("[" +:+ ?s) with (String "[" s).
  intros H Hlost. destruct kept as [|c p]; [reflexivity |].
  rewrite append_cons in H. injection H as <- H. symmetry in H.
  assert (Hp : exists q, p +:+ q = PyStr.join ", " (map PyStr.of_int ids)).
  { destruct (prefix_of_app _ _ _ _ H) as [[r Hr] | (p2 & -> & Hp2 & Hrest)].
    - by exists r.
    - destruct p2 as [|x p2]; [done |]. rewrite append_cons in Hrest.
      injection Hrest as _ Hrest. by destruct p2. }
  destruct Hp as [q Hq]. unfold Json.loads.
  change (Json.skip_ws (String "[" p)) with (String "[" p).
  replace (2 * String.length (String "[" p) + 1)%nat
    with (S (2 * String.length (String "[" p))) by lia.
  set (fuel := (2 * _)%nat).
  change (Json.scan_once (S fuel) (String "[" p))
    with (match Json.skip_ws p with
          | String c' r' =>
              if Ascii.eqb c' "]" then Some (Json.Arr [], r')
              else Json.JSONArray fuel (String c' r') []
          | EmptyString => None
          end).
  destruct p as [|d p']; [reflexivity |].
  destruct ids as [|z ids]; [done |].
  assert (Hstart : number_start (String d p' +:+ q))
    by (rewrite Hq; apply join_of_int_start).
  rewrite append_cons in Hstart.
  destruct (number_start_plain _ _ Hstart) as [Hws Hclose].
  cbn [Json.skip_ws]. rewrite Hws, Hclose.
  by rewrite (JSONArray_prefix ids z _ q).
Qed.

End Truncation.

(** X17. A store file cut short reads as an empty store: when only a
    proper prefix of what [save_forwarded_messages] writes reaches the
    file, the next load returns the empty set, so that every identifier
    saved before is forgotten. *)
Theorem truncated_store_file_loads_empty (forwarded_ids : gset Z) (fs : file)
    (kept lost : string) :
  save_forwarded_messages forwarded_ids fs = Some (kept +:+ lost) ->
  lost <> "" ->
  load_forwarded_messages (Some kept) = Return ∅.
Proof.
  unfold save_forwarded_messages. intros [= Hdump] Hlost.
  unfold load_forwarded_messages, json_load.
  rewrite (within_limits_prefix kept lost)
    by (rewrite <- Hdump; apply dumps_within_limits).
  by rewrite (loads_truncated _ _ _ Hdump Hlost).
Qed.

Lemma truncated_store_file_loads_empty_witness :
  load_forwarded_messages (Some "[7, ") = Return ∅.
Proof.
  apply (truncated_store_file_loads_empty {[6; 7]} None "[7, " "6]").
  - by vm_compute.
  - discriminate.
Defined.

(** ** The scheduler *)

Section Scheduler.

Variable cfg : config.

(** The effects of a cycle that returns are those of its final state. *)
Lemma cycle_effects_returned (w : world) (chat_username : string)
    (hours_back : Z) (fs : file) (st : cycle) :
  get_chat_messages_by_time cfg w chat_username hours_back fs = Return st ->
  cycle_effects cfg w chat_username hours_back fs = (calls st, disk st).
Proof.
  unfold get_chat_messages_by_time, cycle_effects.
  destruct (load_forwarded_messages fs) as [ids | e |]; [| done | done].
  unfold client_call. destruct (negb (raises w _)); [| done].
  by intros [= <-].
Qed.

(** What a cycle forwards and leaves in the file, when the store
    loads. *)
Lemma cycle_effects_loaded (w : world) (chat_username : string)
    (hours_back : Z) (fs : file) (ids : gset Z) :
  load_forwarded_messages fs = Return ids ->
  exists log ok,
    fst (cycle_effects cfg w chat_username hours_back fs)
    = log ++ [(Disconnect, ok)]
    /\ get_chat_messages_by_time cfg w chat_username hours_back fs
       = (if ok
          then Return
                 (snd (client_call w Disconnect
                         (sweep cfg w chat_username
                            (cutoff (utcnow w 0) hours_back) (start ids fs))))
          else Raise ClientError)
    /\ NoDup (forwarded_in (log ++ [(Disconnect, ok)]))
    /\ Forall (fun z => z ∉ ids) (forwarded_in (log ++ [(Disconnect, ok)]))
    /\ load_forwarded_messages
         (snd (cycle_effects cfg w chat_username hours_back fs))
       = Return (list_to_set (forwarded_in (log ++ [(Disconnect, ok)])) ∪ ids).
Proof.
  intros Hload. unfold cycle_effects, get_chat_messages_by_time.
  rewrite Hload. cbv zeta.
  set (swept := sweep cfg w chat_username _ (start ids fs)).
  destruct (sweep_attempts cfg w chat_username
              (cutoff (utcnow w 0) hours_back) (start ids fs))
    as (setup & attempts & Hlog & Hsetup & _ & Hstore & _ & Hnodup
        & Hsound & _).
  fold swept in Hlog, Hstore.
  pose proof (sweep_mirrored cfg w (cutoff (utcnow w 0) hours_back)
                chat_username (start ids fs) Hload) as Hmirror.
  fold swept in Hmirror. unfold mirrored in Hmirror.
  unfold client_call. cbn [fst snd calls disk].
  exists (calls swept), (negb (raises w (length (calls swept)))).
  assert (Hin : forwarded_in
                  (calls swept
                     ++ [(Disconnect, negb (raises w (length (calls swept))))])
                = newly_forwarded attempts).
  { rewrite Hlog. cbn [start calls].
    rewrite !forwarded_in_app, forwarded_in_attempts.
    rewrite (forwarded_in_setup _ Hsetup). cbn. by rewrite app_nil_r. }
  rewrite Hin. cbn [start forwarded_message_ids] in *.
  split; [done |]. split; [by destruct (negb _) |]. split; [done |].
  split; [| by rewrite Hmirror, Hstore].
  unfold newly_forwarded. apply Forall_fmap, Forall_forall.
  intros a Ha. apply list_elem_of_In, filter_In in Ha as [Ha _].
  rewrite Forall_forall in Hsound. apply list_elem_of_In in Ha.
  by destruct (Hsound a Ha) as (_ & _ & _ & Hnew & _).
Qed.

Lemma run_scheduler_loaded (worlds : list world) :
  forall (fs : file) (ids : gset Z),
    load_forwarded_messages fs = Return ids ->
    let turns := fst (run_scheduler cfg worlds fs) in
    length turns = length worlds
    /\ NoDup (forwarded_over turns)
    /\ Forall (fun z => z ∉ ids) (forwarded_over turns)
    /\ load_forwarded_messages (snd (run_scheduler cfg worlds fs))
       = Return (list_to_set (forwarded_over turns) ∪ ids)
    /\ Forall
         (fun t =>
            exists log ok,
              made t = log ++ [(Disconnect, ok)]
              /\ (if ok
                  then slept t = 3600 /\ exists st, ran t = Return st
                  else slept t = 600 /\ ran t = Raise ClientError))
         turns.
Proof.
  induction worlds as [|w later IH]; intros fs ids Hload; cbv zeta.
  - cbn. repeat split; try done; [constructor |].
    rewrite Hload. f_equal. by rewrite (left_id_L ∅ (∪)).
  - cbn [run_scheduler].
    destruct (cycle_effects_loaded w "NSbaraholka" 1 fs ids Hload)
      as (log & ok & Hmade & Hran & Hnodup & Hnew & Hfile).
    destruct (cycle_effects cfg w "NSbaraholka" 1 fs) as [made' fs'].
    cbn [fst snd] in Hmade, Hfile. subst made'.
    specialize (IH fs' _ Hfile). cbv zeta in IH.
    destruct IH as (Hlen & Hnodup' & Hnew' & Hfile' & Hturns).
    destruct (run_scheduler cfg later fs') as [turns final].
    cbn [fst snd] in *.
    assert (Hshape :
      exists t,
        match get_chat_messages_by_time cfg w "NSbaraholka" 1 fs with
        | Foreign => ([], fs)
        | _ =>
            ({| found := fs;
                ran := get_chat_messages_by_time cfg w "NSbaraholka" 1 fs;
                made := log ++ [(Disconnect, ok)];
                slept :=
                  match get_chat_messages_by_time cfg w "NSbaraholka" 1 fs
                  with Return _ => 3600 | _ => 600 end |} :: turns, final)
        end = (t :: turns, final)
        /\ made t = log ++ [(Disconnect, ok)]
        /\ (if ok
            then slept t = 3600 /\ exists st, ran t = Return st
            else slept t = 600 /\ ran t = Raise ClientError)).
    { rewrite Hran. destruct ok; eexists; (split; [reflexivity |]);
        cbn [made slept ran]; split; try done. split; [done |]. by eexists. }
    destruct Hshape as (t & -> & Ht & Hsleep). cbn [fst snd length].
    unfold forwarded_over in *. cbn [flat_map]. rewrite Ht.
    split; [by rewrite Hlen |].
    split.
    { apply NoDup_app. split; [done |]. split; [| done].
      intros z Hz Hz'. rewrite Forall_forall in Hnew'.
      apply (Hnew' z Hz'). apply elem_of_union_l.
      by apply elem_of_list_to_set. }
    split.
    { apply Forall_app. split; [done |].
      eapply Forall_impl; [exact Hnew' |]. cbn. intros z Hz Hin.
      apply Hz. by apply elem_of_union_r. }
    split.
    { rewrite Hfile'. f_equal. rewrite list_to_set_app_L.
      rewrite (assoc_L (∪)).
      by rewrite (comm_L (∪) (list_to_set (forwarded_in _))). }
    constructor; [| done]. by exists log, ok.
Qed.

Lemma run_scheduler_blocked (worlds : list world) (fs : file) (e : exn) :
  load_forwarded_messages fs = Raise e ->
  run_scheduler cfg worlds fs
  = (map (fun _ => {| found := fs; ran := Raise e; made := []; slept := 600 |})
       worlds,
     fs).
Proof.
  intros Hload. induction worlds as [|w later IH]; [done |].
  cbn [run_scheduler map]. unfold get_chat_messages_by_time, cycle_effects.
  rewrite Hload. by rewrite IH.
Qed.

(** Every turn either raised at loading, before any call, or went
    through to the disconnect. *)
Lemma run_scheduler_turn (worlds : list world) (fs : file) (t : turn) :
  In t (fst (run_scheduler cfg worlds fs)) ->
  (made t = [] /\ slept t = 600 /\ exists e, ran t = Raise e)
  \/ (exists log ok,
        made t = log ++ [(Disconnect, ok)]
        /\ (if ok
            then slept t = 3600 /\ exists st, ran t = Return st
            else slept t = 600 /\ ran t = Raise ClientError)).
Proof.
  intros Hin.
  destruct (load_forwarded_messages fs) as [ids | e |] eqn:Hload.
  - right.
    destruct (run_scheduler_loaded worlds fs ids Hload)
      as (_ & _ & _ & _ & Hturns).
    rewrite Forall_forall in Hturns. by apply Hturns, list_elem_of_In.
  - left. rewrite (run_scheduler_blocked worlds fs e Hload) in Hin.
    cbn [fst] in Hin. apply in_map_iff in Hin as (w & <- & _).
    cbn. split; [done | split; [done | by exists e]].
  - destruct worlds as [|w later]; [done |].
    cbn [run_scheduler] in Hin.
    unfold get_chat_messages_by_time, cycle_effects in Hin.
    by rewrite Hload in Hin.
Qed.

End Scheduler.

(** X3. Started on a store file that loads, the scheduler takes every
    turn, and over all its turns no identifier is forwarded with success
    twice, none that the file held at the start is forwarded, and the
    file it leaves loads as the initial store plus everything forwarded,
    whatever raised in between. *)
Theorem scheduler_never_forwards_twice (cfg : config) (worlds : list world)
    (fs : file) (ids : gset Z) :
  load_forwarded_messages fs = Return ids ->
  let turns := fst (run_scheduler cfg worlds fs) in
  length turns = length worlds
  /\ NoDup (forwarded_over turns)
  /\ Forall (fun z => z ∉ ids) (forwarded_over turns)
  /\ load_forwarded_messages (snd (run_scheduler cfg worlds fs))
     = Return (list_to_set (forwarded_over turns) ∪ ids).
Proof.
  intros Hload.
  destruct (run_scheduler_loaded cfg worlds fs ids Hload)
    as (H1 & H2 & H3 & H4 & _).
  done.
Qed.

(** X18. The sleep of a turn follows its disconnect. The scheduler
    sleeps the hour exactly in the turns whose last call on the client is
    a disconnect that returned, and then the cycle returned: whatever
    raised before it inside the cycle (connect, the login check, a
    lookup, a header, a forward) does not shorten the sleep. A turn whose
    disconnect raised sleeps ten minutes, and the exception reached the
    scheduler. *)
Theorem scheduler_sleep_follows_the_disconnect (cfg : config)
    (worlds : list world) (fs : file) (t : turn) :
  In t (fst (run_scheduler cfg worlds fs)) ->
  (slept t = 3600 <-> exists log, made t = log ++ [(Disconnect, true)])
  /\ (slept t = 3600 -> exists st, ran t = Return st)
  /\ (forall log,
        made t = log ++ [(Disconnect, false)] ->
        slept t = 600 /\ ran t = Raise ClientError).
Proof.
  intros Hin.
  destruct (run_scheduler_turn cfg worlds fs t Hin)
    as [(Hmade & Hsleep & e & Hran)
       | (log & [] & Hmade & Hsleep & Hran)].
  - rewrite Hmade, Hsleep. split; [| split]; [split | |]; try done.
    + intros [log Hlog]. by destruct log.
    + intros log Hlog. by destruct log.
  - rewrite Hmade, Hsleep. split; [| split]; [split | |]; try done.
    + intros _. by exists log.
    + intros log' Hlog. by apply app_inj_tail in Hlog as [_ [=]].
  - rewrite Hmade, Hsleep. split; [| split]; [split | |]; try done.
    intros [log' Hlog]. by apply app_inj_tail in Hlog as [_ [=]].
Qed.

(** X19. A store file that makes loading raise blocks the scheduler
    for good: every turn raises the same exception before any call on the
    client, sleeps ten minutes, and leaves the file as it is. *)
Theorem rejected_store_file_blocks_the_scheduler (cfg : config)
    (worlds : list world) (fs : file) (e : exn) :
  load_forwarded_messages fs = Raise e ->
  run_scheduler cfg worlds fs
  = (map (fun _ => {| found := fs; ran := Raise e; made := []; slept := 600 |})
       worlds,
     fs).
Proof. apply run_scheduler_blocked. Qed.

Lemma scheduler_never_forwards_twice_witness :
  let turns :=
    fst (run_scheduler sample_config [flaky; calm; calm] (Some "[7]")) in
  length turns = length [flaky; calm; calm]
  /\ NoDup (forwarded_over turns)
  /\ Forall (fun z => z ∉ ({[7]} : gset Z)) (forwarded_over turns)
  /\ load_forwarded_messages
       (snd (run_scheduler sample_config [flaky; calm; calm] (Some "[7]")))
     = Return (list_to_set (forwarded_over turns) ∪ {[7]}).
Proof.
  apply (scheduler_never_forwards_twice sample_config [flaky; calm; calm]
           (Some "[7]") {[7]}).
  by vm_compute.
Defined.

Lemma scheduler_sleep_follows_the_disconnect_witness :
  exists t,
    In t (fst (run_scheduler sample_config [hangup; calm] (Some "[7]")))
    /\ slept t = 600
    /\ (slept t = 3600 <-> exists log, made t = log ++ [(Disconnect, true)])
    /\ (slept t = 3600 -> exists st, ran t = Return st)
    /\ (forall log,
          made t = log ++ [(Disconnect, false)] ->
          slept t = 600 /\ ran t = Raise ClientError).
Proof.
  destruct (run_scheduler sample_config [hangup; calm] (Some "[7]"))
    as [[|t turns] final] eqn:Hrun; [by vm_compute in Hrun |].
  exists t.
  assert (Hin : In t (fst (run_scheduler sample_config [hangup; calm]
                             (Some "[7]"))))
    by (rewrite Hrun; by left).
  split; [by left |].
  split; [vm_compute in Hrun; by injection Hrun as <- _ _ |].
  exact (scheduler_sleep_follows_the_disconnect sample_config
           [hangup; calm] (Some "[7]") t Hin).
Defined.

Lemma rejected_store_file_blocks_the_scheduler_witness :
  run_scheduler sample_config [calm; calm] (Some "5")
  = (map (fun _ => {| found := Some "5"; ran := Raise TypeError;
                      made := []; slept := 600 |}) [calm; calm],
     Some "5").
Proof.
  apply (rejected_store_file_blocks_the_scheduler sample_config [calm; calm]
           (Some "5") TypeError).
  by vm_compute.
Defined.

(** ** The connection test *)

Section LoginFacts.

Import Login.

Ltac step_login w :=
  cbn beta iota zeta;
  cbn [List.filter is_call is_question length app fst snd];
  match goal with
  | |- context [replies w ?n] =>
      is_ground n; destruct (replies w n) as [|[]] eqn:?
  end.

Ltac run_login w :=
  unfold test_telegram_connection, try_block, except_password_needed,
    mbind, action_bind, await, input;
  repeat step_login w;
  cbn beta iota zeta;
  cbn [List.filter is_call is_question length app fst snd].

Ltac settle_events :=
  cbn [In]; repeat split; intros;
  repeat match goal with
         | H : _ \/ _ |- _ => destruct H
         | H : False |- _ => destruct H
         end;
  simplify_eq; repeat split; auto 12.

Lemma bracketed_log (cred : credentials) (w : world) :
  complete cred = true ->
  bracketed (fst (test_telegram_connection cred w)) = true.
Proof.
  unfold complete. intros Hcred. apply negb_true_iff in Hcred.
  unfold test_telegram_connection. rewrite Hcred.
  unfold try_block. destruct (logged_in w) eqn:Hin; run_login w; reflexivity.
Qed.

Lemma quiet_when_logged_in (cred : credentials) (w : world) :
  logged_in w = true ->
  forallb (fun ev => negb (signs_in ev))
    (fst (test_telegram_connection cred w)) = true.
Proof.
  intros Hin. unfold test_telegram_connection.
  destruct (_ || _); [reflexivity |].
  unfold try_block. rewrite Hin. run_login w; reflexivity.
Qed.

Lemma sign_in_events (cred : credentials) (w : world) :
  let log := fst (test_telegram_connection cred w) in
  (forall phone code r,
     In (Called (SignIn phone code) r) log ->
     phone = PHONE_NUMBER cred
     /\ logged_in w = false
     /\ code = typed w 0
     /\ In (Called (SendCodeRequest (PHONE_NUMBER cred)) Returns) log)
  /\ (forall password r,
        In (Called (SignInPassword password) r) log ->
        password = typed w 1
        /\ In (Called (SignIn (PHONE_NUMBER cred) (typed w 0))
                 (Raises SessionPasswordNeededError)) log)
  /\ (forall prompt answer,
        In (Asked prompt answer) log ->
        In (Called (SendCodeRequest (PHONE_NUMBER cred)) Returns) log).
Proof.
  cbv zeta. unfold test_telegram_connection.
  destruct (_ || _); [by settle_events |].
  unfold try_block. destruct (logged_in w) eqn:Hin; run_login w;
    by settle_events.
Qed.

Lemma success_cases (cred : credentials) (w : world) :
  snd (test_telegram_connection cred w) = Return Success ->
  let log := fst (test_telegram_connection cred w) in
  In (Called GetMe Returns) log
  /\ (logged_in w = true
      \/ In (Called (SignIn (PHONE_NUMBER cred) (typed w 0)) Returns) log
      \/ In (Called (SignInPassword (typed w 1)) Returns) log)
  /\ forallb
       (fun ev =>
          match ev with
          | Called (SignIn _ _) (Raises SessionPasswordNeededError) => true
          | Called _ (Raises _) => false
          | _ => true
          end) log = true.
Proof.
  cbv zeta. unfold test_telegram_connection.
  destruct (_ || _); [done |].
  unfold try_block. destruct (logged_in w) eqn:Hin; run_login w;
    intros Hsaid; try discriminate Hsaid; cbn [In];
    (split; [| split; [| reflexivity]]); auto 12.
Qed.

End LoginFacts.

(** X20. The connection test with a credential missing (an [API_ID]
    of zero, an [API_HASH] or a [PHONE_NUMBER] unset or empty) calls
    nothing and asks nothing. With all three it connects first and
    disconnects last, whatever raised in between, and calls neither again
    in between. *)
Theorem connection_test_always_disconnects (cred : Login.credentials)
    (w : Login.world) :
  if Login.complete cred
  then Login.bracketed (fst (Login.test_telegram_connection cred w)) = true
  else Login.test_telegram_connection cred w = ([], Return Login.NoCredentials).
Proof.
  destruct (Login.complete cred) eqn:Hcred; [by apply bracketed_log |].
  unfold Login.complete in Hcred. apply negb_false_iff in Hcred.
  unfold Login.test_telegram_connection. by rewrite Hcred.
Qed.

(** X21. The connection test asks only for what Telegram demands. An
    account that is already logged in is asked nothing: no code is
    requested and no sign-in attempted. A sign-in with a code happens only
    for an account that is not logged in, after the code request for the
    configured phone number returned, with that phone number and the first
    line typed. A sign-in with a password happens only after the sign-in
    with the code raised the error that asks for it, with the second line
    typed. Nothing is asked unless the code request returned. *)
Theorem connection_test_asks_only_when_needed (cred : Login.credentials)
    (w : Login.world) :
  let log := fst (Login.test_telegram_connection cred w) in
  (Login.logged_in w = true ->
   forallb (fun ev => negb (Login.signs_in ev)) log = true)
  /\ (forall phone code r,
        In (Login.Called (Login.SignIn phone code) r) log ->
        phone = Login.PHONE_NUMBER cred
        /\ Login.logged_in w = false
        /\ code = Login.typed w 0
        /\ In (Login.Called (Login.SendCodeRequest (Login.PHONE_NUMBER cred))
                 Login.Returns) log)
  /\ (forall password r,
        In (Login.Called (Login.SignInPassword password) r) log ->
        password = Login.typed w 1
        /\ In (Login.Called
                 (Login.SignIn (Login.PHONE_NUMBER cred) (Login.typed w 0))
                 (Login.Raises Login.SessionPasswordNeededError)) log)
  /\ (forall prompt answer,
        In (Login.Asked prompt answer) log ->
        In (Login.Called (Login.SendCodeRequest (Login.PHONE_NUMBER cred))
              Login.Returns) log).
Proof.
  cbv zeta. split; [apply quiet_when_logged_in | apply sign_in_events].
Qed.

(** X22. The connection test reports success only when the account
    information was read after the account was found logged in or a
    sign-in returned, and when no call before the disconnect raised,
    except a sign-in with the code that asked for the password. *)
Theorem connection_test_success_means_signed_in (cred : Login.credentials)
    (w : Login.world) :
  snd (Login.test_telegram_connection cred w) = Return Login.Success ->
  let log := fst (Login.test_telegram_connection cred w) in
  In (Login.Called Login.GetMe Login.Returns) log
  /\ (Login.logged_in w = true
      \/ In (Login.Called
               (Login.SignIn (Login.PHONE_NUMBER cred) (Login.typed w 0))
               Login.Returns) log
      \/ In (Login.Called (Login.SignInPassword (Login.typed w 1))
               Login.Returns) log)
  /\ forallb
       (fun ev =>
          match ev with
          | Login.Called (Login.SignIn _ _)
              (Login.Raises Login.SessionPasswordNeededError) => true
          | Login.Called _ (Login.Raises _) => false
          | _ => true
          end) log = true.
Proof. apply success_cases. Qed.

Lemma connection_test_success_means_signed_in_witness :
  let log := fst (Login.test_telegram_connection my_credentials two_step) in
  In (Login.Called Login.GetMe Login.Returns) log
  /\ (Login.logged_in two_step = true
      \/ In (Login.Called
               (Login.SignIn (Login.PHONE_NUMBER my_credentials)
                  (Login.typed two_step 0))
               Login.Returns) log
      \/ In (Login.Called (Login.SignInPassword (Login.typed two_step 1))
               Login.Returns) log)
  /\ forallb
       (fun ev =>
          match ev with
          | Login.Called (Login.SignIn _ _)
              (Login.Raises Login.SessionPasswordNeededError) => true
          | Login.Called _ (Login.Raises _) => false
          | _ => true
          end) log = true.
Proof.
  apply (connection_test_success_means_signed_in my_credentials two_step).
  by vm_compute.
Defined.
